(** * Assistive colour / proximity reader

    A shallow embedding of [main.py] and of the two diagnostic tools
    [tools/test_color.py] and [tools/test_ultrasonic.py], followed by the
    properties of the sensing-to-feedback loop.

    Python [float] is IEEE binary64, so it is modelled by Rocq's primitive
    [float]; Python [int] is [Z]; [str] is [string].  Hardware and time are
    modelled by a [world]: the scripted future readings of the sensors and of
    the wall clock, the [active] flag, and the log of every effect performed. *)

From Stdlib Require Import ZArith List String Bool Lia Floats Uint63 Sorted.
Import ListNotations.

#[local] Set Warnings "-inexact-float".
#[local] Open Scope string_scope.
#[local] Open Scope Z_scope.

(** ** Python numeric primitives *)

Module Py.

(** [float(k)] for a Python int: exact for [|k| < 2^53], which covers every
    integer this program converts (byte differences and table thresholds). *)
Definition float_of_int (k : Z) : float :=
  if k <? 0 then PrimFloat.opp (PrimFloat.of_uint63 (Uint63.of_Z (- k)))
  else PrimFloat.of_uint63 (Uint63.of_Z k).

(** [x ** 2] on a float: CPython calls C [pow (x, 2.0)], taken here to
    yield the correctly rounded square, as [x * x] does. *)
Definition pow2 (x : float) : float := PrimFloat.mul x x.

(** [int * float]: the int operand is converted first. *)
Definition int_mul_float (k : Z) (w : float) : float :=
  PrimFloat.mul (float_of_int k) w.

(** [x >= k] between a float and an int. *)
Definition float_ge_int (x : float) (k : Z) : bool :=
  PrimFloat.leb (float_of_int k) x.

(** [float("inf")] *)
Definition inf : float := infinity.

End Py.

(** ** The colour table and the classifier, shared types *)

Definition rgb_t : Type := (Z * Z * Z)%type.
Definition color_entry : Type := (string * rgb_t)%type.

(** A colour sample as the sensor's [color_rgb_bytes] delivers it. *)
Definition is_byte (k : Z) : Prop := 0 <= k <= 255.
Definition rgb_bytes (c : rgb_t) : Prop :=
  let '(r, g, b) := c in is_byte r /\ is_byte g /\ is_byte b.

(** ** Hardware, time and effects

    Every call that leaves the interpreter ([time.sleep], [time.time],
    [GPIO.output], [GPIO.input], the colour sensor, [espeak], the PWM buzzer)
    is recorded in the [log] of the world, oldest first.  What the sensors and
    the clock will answer is scripted in the world; a call that needs an
    answer the script no longer holds ends the run as [Starved]. *)

Inductive event : Type :=
| Sleep (seconds : float)
| GpioOutput (pin : Z) (level : bool)
| GpioInput (pin : Z) (level : Z)
| TimeRead (now : float)
| ColorRead (sample : rgb_t)
| Speak (text : string)
| BuzzerStart (duty : Z)
| BuzzerStop.

(** Exceptions are identified by their class. *)
Inductive pyexn : Type :=
| UnboundLocalError.

Record world : Type := mkWorld {
  active : bool;               (* main.py's global flag *)
  echo_line : list bool;       (* future levels of the ECHO pin *)
  wall_clock : list float;     (* future results of time.time() *)
  color_sensor : list rgb_t;   (* future values of color_rgb_bytes *)
  log : list event
}.

Inductive outcome (A : Type) : Type :=
| Ret (a : A) (w : world)
| Raise (e : pyexn) (w : world)
| Starved (w : world)
| OutOfFuel (w : world).

Arguments Ret {A} a w.
Arguments Raise {A} e w.
Arguments Starved {A} w.
Arguments OutOfFuel {A} w.

Definition M (A : Type) : Type := world -> outcome A.

Definition ret {A} (a : A) : M A := fun w => Ret a w.

Definition bind {A B} (m : M A) (k : A -> M B) : M B :=
  fun w =>
    match m w with
    | Ret a w' => k a w'
    | Raise e w' => Raise e w'
    | Starved w' => Starved w'
    | OutOfFuel w' => OutOfFuel w'
    end.

Definition raise {A} (e : pyexn) : M A := fun w => Raise e w.

Declare Scope io_scope.
Delimit Scope io_scope with io.
Notation "x <- m ;; k" := (bind m (fun x => k))
  (at level 61, m at next level, right associativity) : io_scope.
Notation "m ;; k" := (bind m (fun _ => k))
  (at level 61, right associativity) : io_scope.
#[local] Open Scope io_scope.

Definition emit (ev : event) : M unit :=
  fun w => Ret tt (mkWorld (active w) (echo_line w) (wall_clock w) (color_sensor w)
                           (log w ++ [ev])).

Definition time_sleep (seconds : float) : M unit := emit (Sleep seconds).

Definition time_time : M float :=
  fun w =>
    match wall_clock w with
    | [] => Starved w
    | now :: later =>
        Ret now (mkWorld (active w) (echo_line w) later (color_sensor w)
                         (log w ++ [TimeRead now]))
    end.

Definition gpio_output (pin : Z) (level : bool) : M unit := emit (GpioOutput pin level).

(** [GPIO.input] on the echo pin, the only pin the sources read. *)
Definition gpio_input (pin : Z) : M Z :=
  fun w =>
    match echo_line w with
    | [] => Starved w
    | level :: later =>
        let v := if level then 1 else 0 in
        Ret v (mkWorld (active w) later (wall_clock w) (color_sensor w)
                       (log w ++ [GpioInput pin v]))
    end.

Definition color_rgb_bytes : M rgb_t :=
  fun w =>
    match color_sensor w with
    | [] => Starved w
    | sample :: later =>
        Ret sample (mkWorld (active w) (echo_line w) (wall_clock w) later
                            (log w ++ [ColorRead sample]))
    end.

Definition buzzer_start (duty : Z) : M unit := emit (BuzzerStart duty).
Definition buzzer_stop : M unit := emit BuzzerStop.

Definition read_active : M bool := fun w => Ret (active w) w.
Definition write_active (b : bool) : M unit :=
  fun w => Ret tt (mkWorld b (echo_line w) (wall_clock w) (color_sensor w) (log w)).

(** Reading a local that an unexecuted loop body never bound. *)
Definition local {A} (v : option A) : M A :=
  match v with
  | Some a => ret a
  | None => raise UnboundLocalError
  end.

(** [while cond: x = body], with [x] the only local the loop assigns. *)
Fixpoint while_fuel {A} (fuel : nat) (cond : M bool) (body : M A) (x : option A)
    : M (option A) :=
  match fuel with
  | O => fun w => OutOfFuel w
  | S fuel' =>
      c <- cond ;;
      if c : bool then (v <- body ;; while_fuel fuel' cond body (Some v))
      else ret x
  end.

(** Both loops of the sources poll the echo pin in their condition, so they
    make at most one iteration per scripted reading. *)
Definition while_polling {A} (cond : M bool) (body : M A) (x : option A)
    : M (option A) :=
  fun w => while_fuel (S (List.length (echo_line w))) cond body x w.

(** ** main.py *)

Module main.

Definition TRIG : Z := 17.
Definition ECHO : Z := 13.
Definition BUZZER_PIN : Z := 27.
Definition BUTTON_PIN : Z := 18.

Definition RED_W : float := 1.20%float.
Definition GREEN_W : float := 0.35%float.
Definition BLUE_W : float := 0.05%float.

Definition COLOR_MAP : list color_entry :=
  [ ("red",    (255, 0, 0));
    ("orange", (255, 128, 0));
    ("yellow", (255, 255, 0));
    ("green",  (0, 255, 0));
    ("blue",   (0, 0, 255));
    ("indigo", (127, 0, 255));
    ("violet", (255, 0, 255));
    ("white",  (255, 255, 255)) ].

Definition BEEP_TABLE : list (Z * float) :=
  [ (150, 1.25%float);
    (120, 1.00%float);
    (90,  0.75%float);
    (60,  0.50%float);
    (30,  0.25%float);
    (0,   0.07%float) ].

(** The weighted Euclidean distance computed in the body of the loop of
    [closest_color] for one reference triple. *)
Definition color_dist (sample ref : rgb_t) : float :=
  let '(r, g, b) := sample in
  let '(rr, gg, bb) := ref in
  let dr := Py.int_mul_float (rr - r) RED_W in
  let dg := Py.int_mul_float (gg - g) GREEN_W in
  let db := Py.int_mul_float (bb - b) BLUE_W in
  PrimFloat.sqrt (PrimFloat.add (PrimFloat.add (Py.pow2 dr) (Py.pow2 dg)) (Py.pow2 db)).

(** One iteration of [for name, (rr, gg, bb) in COLOR_MAP], on the pair
    [(best_name, best_dist)]. *)
Definition closest_color_step (sample : rgb_t) (best : string * float)
    (entry : color_entry) : string * float :=
  let '(best_name, best_dist) := best in
  let '(name, ref) := entry in
  let dist := color_dist sample ref in
  if PrimFloat.ltb dist best_dist then (name, dist) else (best_name, best_dist).

(** The body of [closest_color] with the module global [COLOR_MAP] taken as
    a parameter. *)
Definition closest_color_in (table : list color_entry) (sample : rgb_t) : string :=
  fst (fold_left (closest_color_step sample) table ("unknown", Py.inf)).

Definition closest_color (sample : rgb_t) : string :=
  closest_color_in COLOR_MAP sample.

(** [speak]: [subprocess.run (["espeak", text], ...)], result ignored. *)
Definition speak (text : string) : M unit := emit (Speak text).

(** The debounce interval [setup_gpio] passes to [GPIO.add_event_detect]
    (milliseconds). *)
Definition bouncetime : Z := 200.

Definition on_button (channel : Z) : M unit :=
  a <- read_active ;;
  write_active (negb a).

Definition distance_cm : M float :=
  gpio_output TRIG true ;;
  time_sleep 0.00001%float ;;
  gpio_output TRIG false ;;
  pulse_start <- while_polling (v <- gpio_input ECHO ;; ret (v =? 0)) time_time None ;;
  pulse_end <- while_polling (v <- gpio_input ECHO ;; ret (v =? 1)) time_time None ;;
  e <- local pulse_end ;;
  s <- local pulse_start ;;
  let duration := PrimFloat.sub e s in
  ret (PrimFloat.mul duration 17150.0%float).

(** The [for threshold, t in BEEP_TABLE] loop of [beep_for_distance]: the
    pair at which it breaks, if it breaks. *)
Fixpoint beep_entry_in (table : list (Z * float)) (dist : float) : option (Z * float) :=
  match table with
  | [] => None
  | (threshold, t) :: rest =>
      if Py.float_ge_int dist threshold then Some (threshold, t)
      else beep_entry_in rest dist
  end.

Definition beep_entry (dist : float) : option (Z * float) :=
  beep_entry_in BEEP_TABLE dist.

(** The value of [wait_time] after the loop. *)
Definition wait_time_for (dist : float) : option float :=
  match beep_entry dist with
  | Some (_, t) => Some t
  | None => None
  end.

Definition beep_for_distance (dist : float) : M unit :=
  match wait_time_for dist with
  | None => ret tt
  | Some wait_time =>
      time_sleep wait_time ;;
      buzzer_start 10 ;;
      time_sleep 0.1%float ;;
      buzzer_stop
  end.

(** The body of [while True] in [main]. *)
Definition main_iteration : M unit :=
  a <- read_active ;;
  if negb a then time_sleep 0.1%float
  else
    rgb <- color_rgb_bytes ;;
    let color_name := closest_color rgb in
    speak color_name ;;
    dist <- distance_cm ;;
    beep_for_distance dist.

(** The first [n] iterations of [while True]. *)
Fixpoint main_loop (n : nat) : M unit :=
  match n with
  | O => ret tt
  | S k => main_iteration ;; main_loop k
  end.

End main.

(** ** tools/test_color.py *)

Module test_color.

Definition RED_W : float := 1.20%float.
Definition GREEN_W : float := 0.35%float.
Definition BLUE_W : float := 0.05%float.

Definition COLOR_MAP : list color_entry :=
  [ ("red",    (255, 0, 0));
    ("orange", (255, 128, 0));
    ("yellow", (255, 255, 0));
    ("green",  (0, 255, 0));
    ("blue",   (0, 0, 255));
    ("indigo", (127, 0, 255));
    ("violet", (255, 0, 255));
    ("white",  (255, 255, 255));
    ("black",  (0, 0, 0)) ].

Definition color_dist (sample ref : rgb_t) : float :=
  let '(r, g, b) := sample in
  let '(rr, gg, bb) := ref in
  let dr := Py.int_mul_float (rr - r) RED_W in
  let dg := Py.int_mul_float (gg - g) GREEN_W in
  let db := Py.int_mul_float (bb - b) BLUE_W in
  PrimFloat.sqrt (PrimFloat.add (PrimFloat.add (Py.pow2 dr) (Py.pow2 dg)) (Py.pow2 db)).

Definition closest_color_step (sample : rgb_t) (acc : string * float)
    (entry : color_entry) : string * float :=
  let '(best, best_dist) := acc in
  let '(name, ref) := entry in
  let dist := color_dist sample ref in
  if PrimFloat.ltb dist best_dist then (name, dist) else (best, best_dist).

Definition closest_color_in (table : list color_entry) (sample : rgb_t) : string :=
  fst (fold_left (closest_color_step sample) table ("unknown", Py.inf)).

Definition closest_color (sample : rgb_t) : string :=
  closest_color_in COLOR_MAP sample.

End test_color.


(** ** tools/test_ultrasonic.py *)

Module test_ultrasonic.

Definition TRIG : Z := 17.
Definition ECHO : Z := 13.

Definition distance_cm : M float :=
  gpio_output TRIG true ;;
  time_sleep 0.00001%float ;;
  gpio_output TRIG false ;;
  start <- while_polling (v <- gpio_input ECHO ;; ret (v =? 0)) time_time None ;;
  end_ <- while_polling (v <- gpio_input ECHO ;; ret (v =? 1)) time_time None ;;
  e <- local end_ ;;
  s <- local start ;;
  ret (PrimFloat.mul (PrimFloat.sub e s) 17150.0%float).

End test_ultrasonic.

(** ** The button port

    Modelled from the spec: the edge dispatcher behind
    [GPIO.add_event_detect] belongs to the RPi.GPIO library, which is not part
    of the sources.  Section 4.3: every qualifying falling edge, after a
    debounce window suppresses additional edges, flips the boolean exactly
    once; an edge is delivered to the callback unless it arrives within the
    window that the last delivered edge opened.  Times are in milliseconds. *)

Definition world_of {A} (o : outcome A) : world :=
  match o with
  | Ret _ w | Raise _ w | Starved w | OutOfFuel w => w
  end.

Definition edge_accepted (window : Z) (last : option Z) (now : Z) : bool :=
  match last with
  | None => true
  | Some t => window <? now - t
  end.

Definition falling_edge (window : Z) (callback : Z -> M unit) (channel : Z)
    (st : option Z * world) (now : Z) : option Z * world :=
  let '(last, w) := st in
  if edge_accepted window last now
  then (Some now, world_of (callback channel w))
  else (last, w).

(** The port as [main.setup_gpio] configures it. *)
Definition button_edges (edges : list Z) (st : option Z * world) : option Z * world :=
  fold_left (falling_edge main.bouncetime main.on_button main.BUTTON_PIN) edges st.

(** ** Tables for the sweep over all byte samples

    The three squared channel terms of the distance to the first reference,
    [("red", (255, 0, 0))], each tabulated over the 256 values of its byte. *)

Fixpoint range (n : nat) (start : Z) : list Z :=
  match n with
  | O => []
  | S k => start :: range k (start + 1)
  end.

Definition byte_values : list Z := Eval vm_compute in range 256 0.

Definition red_term (k : Z) : float := Py.pow2 (Py.int_mul_float (255 - k) main.RED_W).
Definition green_term (k : Z) : float := Py.pow2 (Py.int_mul_float (0 - k) main.GREEN_W).
Definition blue_term (k : Z) : float := Py.pow2 (Py.int_mul_float (0 - k) main.BLUE_W).

Definition red_terms : list float := Eval vm_compute in map red_term byte_values.
Definition green_terms : list float := Eval vm_compute in map green_term byte_values.
Definition blue_terms : list float := Eval vm_compute in map blue_term byte_values.

Definition finite_root (x y z : float) : bool :=
  PrimFloat.ltb (PrimFloat.sqrt (PrimFloat.add (PrimFloat.add x y) z)) Py.inf.

(** ** Shape of a distance-to-delay table *)

(** Delays never grow along the table. *)
Definition delays_descend (table : list (Z * float)) : Prop :=
  StronglySorted (fun a b : Z * float => PrimFloat.leb (snd b) (snd a) = true) table.

(** No threshold is below zero. *)
Definition thresholds_nonnegative (table : list (Z * float)) : Prop :=
  Forall (fun e : Z * float => PrimFloat.ltb (Py.float_of_int (fst e)) 0%float = false) table.

(** ** Notions used by the further properties *)

(** The squared channel term of a byte difference [d], for a weight [w]. *)
Definition channel_term (w : float) (d : Z) : float := Py.pow2 (Py.int_mul_float d w).

(** The root of three channel terms is positive, or all of them are zero. *)
Definition positive_root (x y z : float) : bool :=
  let root := PrimFloat.sqrt (PrimFloat.add (PrimFloat.add x y) z) in
  PrimFloat.ltb 0%float root
  || (PrimFloat.eqb x 0%float && PrimFloat.eqb y 0%float && PrimFloat.eqb z 0%float
      && PrimFloat.eqb root 0%float).

(** A channel term vanishes for the zero difference only. *)
Definition term_zero_only (w : float) (d : Z) : bool :=
  (d =? 0) || negb (PrimFloat.eqb (channel_term w d) 0%float).

(** What a polling loop logs while the pin reads [v] and the clock answers
    [ts]: one pin read and one clock read per iteration. *)
Definition poll_log (pin v : Z) (ts : list float) : list event :=
  flat_map (fun t => [GpioInput pin v; TimeRead t]) ts.

(** The value of the local a polling loop assigns, after the clock answered
    [ts]: the last answer, or the initial [x] when the body never ran. *)
Definition last_assigned (ts : list float) (x : option float) : option float :=
  last (map Some ts) x.

(** Events of an ultrasonic measurement: pin traffic, clock reads, sleeps. *)
Definition measure_event (ev : event) : bool :=
  match ev with
  | GpioOutput _ _ | GpioInput _ _ | TimeRead _ | Sleep _ => true
  | ColorRead _ | Speak _ | BuzzerStart _ | BuzzerStop => false
  end.

(** The log of one buzzer pulse after a wait of [t] seconds. *)
Definition pulse_log (t : float) : list event :=
  [Sleep t; BuzzerStart 10; Sleep 0.1%float; BuzzerStop].

(** The log of the trigger pulse that opens a measurement. *)
Definition trigger_log : list event :=
  [GpioOutput main.TRIG true; Sleep 0.00001%float; GpioOutput main.TRIG false].

(** [name] is the name of the first entry of [table] at minimal [dist]:
    every earlier reference is strictly farther, no later one is nearer. *)
Definition first_minimum (dist : rgb_t -> float) (table : list color_entry)
    (name : string) : Prop :=
  exists before ref after,
    table = (before ++ (name, ref) :: after)%list
    /\ (forall e, In e before -> PrimFloat.ltb (dist ref) (dist (snd e)) = true)
    /\ (forall e, In e after -> PrimFloat.leb (dist ref) (dist (snd e)) = true).

(** The pair [(best_name, best_dist)] after the loop of [closest_color] went
    through [seen]. *)
Definition scan_state_ok (dist : rgb_t -> float) (seen : list color_entry)
    (st : string * float) : Prop :=
  exists before ref after,
    seen = (before ++ (fst st, ref) :: after)%list
    /\ snd st = dist ref
    /\ (forall e, In e before -> PrimFloat.ltb (dist ref) (dist (snd e)) = true)
    /\ (forall e, In e after -> PrimFloat.leb (dist ref) (dist (snd e)) = true).

(** The condition of a polling loop: [GPIO.input(pin) == k]. *)
Definition pin_is (pin k : Z) : M bool := v <- gpio_input pin ;; ret (v =? k).

(** What [GPIO.input] returns for a level of the line. *)
Definition level_value (level : bool) : Z := if level then 1 else 0.

(** What a measurement may change: it leaves the flag and the colour sensor
    alone and appends only measurement events to the log. *)
Definition measure_frame (w w' : world) : Prop :=
  active w' = active w
  /\ color_sensor w' = color_sensor w
  /\ exists l, log w' = (log w ++ l)%list /\ forallb measure_event l = true.

(** A world whose echo line is low for [length ts_lo] polls, then high for
    one poll more than [length ts_hi], then low; the clock answers [ts_lo]
    during the first phase and [ts_hi] during the second. *)
Definition pulse_world (a : bool) (ts_lo ts_hi : list float) (e_rest : list bool)
    (c_rest : list float) (cs : list rgb_t) (lg : list event) : world :=
  mkWorld a
    (repeat false (List.length ts_lo) ++ true :: repeat true (List.length ts_hi)
       ++ false :: e_rest)
    (ts_lo ++ ts_hi ++ c_rest) cs lg.

(** The log of a measurement over such a pulse. *)
Definition measure_log (ts_lo ts_hi : list float) : list event :=
  trigger_log ++ poll_log main.ECHO 0 ts_lo ++ [GpioInput main.ECHO 1]
    ++ poll_log main.ECHO 1 ts_hi ++ [GpioInput main.ECHO 0].


(** What [beep_for_distance] appends to the log. *)
Definition beep_log (dist : float) : list event :=
  match main.wait_time_for dist with
  | Some t => pulse_log t
  | None => []
  end.


(** [n] presses of the button, each delivered to [on_button]. *)
Definition presses (n : nat) (w : world) : world :=
  Nat.iter n (fun w' => world_of (main.on_button main.BUTTON_PIN w')) w.

(** * Properties *)

(** ** Order of binary64 values *)

Section FloatOrder.

Lemma SFcompare_antisym (a b : spec_float) :
  SFcompare b a = option_map CompOpp (SFcompare a b).
Proof.
  destruct a as [sa|sa| |sa ma ea], b as [sb|sb| |sb mb eb]; simpl;
    try reflexivity;
    try (destruct sa; reflexivity);
    try (destruct sb; reflexivity);
    try (destruct sa, sb; reflexivity).
  destruct sa, sb; simpl; try reflexivity;
    rewrite (Z.compare_antisym ea eb);
    destruct (ea ?= eb); simpl; try reflexivity;
    rewrite (Pos.compare_cont_antisym ma mb Eq); simpl;
    rewrite ?CompOpp_involutive; reflexivity.
Qed.

Lemma SFcompare_lt_trans (a b c : spec_float) :
  SFcompare a b = Some Lt -> SFcompare b c = Some Lt -> SFcompare a c = Some Lt.
Proof.
  destruct a as [sa|sa| |sa ma ea], b as [sb|sb| |sb mb eb], c as [sc|sc| |sc mc ec];
    simpl; try discriminate;
    try (destruct sa; simpl; congruence);
    try (destruct sb; simpl; congruence);
    try (destruct sc; simpl; congruence);
    try (destruct sa, sb; simpl; congruence);
    try (destruct sa, sc; simpl; congruence);
    try (destruct sb, sc; simpl; congruence);
    try (destruct sa, sb, sc; simpl; congruence).
  change (Pos.compare_cont Eq ma mb) with (ma ?= mb)%positive.
  change (Pos.compare_cont Eq mb mc) with (mb ?= mc)%positive.
  change (Pos.compare_cont Eq ma mc) with (ma ?= mc)%positive.
  destruct sa, sb, sc; simpl; try congruence;
    destruct (Z.compare_spec ea eb), (Z.compare_spec eb ec), (Z.compare_spec ea ec);
    try congruence; try lia;
    destruct (Pos.compare_spec ma mb), (Pos.compare_spec mb mc), (Pos.compare_spec ma mc);
    simpl; try congruence; try lia.
Qed.

Lemma SFcompare_eq_lt_trans (a b c : spec_float) :
  SFcompare a b = Some Eq -> SFcompare b c = Some Lt -> SFcompare a c = Some Lt.
Proof.
  destruct a as [sa|sa| |sa ma ea], b as [sb|sb| |sb mb eb], c as [sc|sc| |sc mc ec];
    simpl; try discriminate;
    try (destruct sa; simpl; congruence);
    try (destruct sb; simpl; congruence);
    try (destruct sc; simpl; congruence);
    try (destruct sa, sb; simpl; congruence);
    try (destruct sa, sc; simpl; congruence);
    try (destruct sb, sc; simpl; congruence);
    try (destruct sa, sb, sc; simpl; congruence).
  change (Pos.compare_cont Eq ma mb) with (ma ?= mb)%positive.
  change (Pos.compare_cont Eq mb mc) with (mb ?= mc)%positive.
  change (Pos.compare_cont Eq ma mc) with (ma ?= mc)%positive.
  destruct sa, sb, sc; simpl; try congruence;
    destruct (Z.compare_spec ea eb), (Z.compare_spec eb ec), (Z.compare_spec ea ec);
    try congruence; try lia;
    destruct (Pos.compare_spec ma mb), (Pos.compare_spec mb mc), (Pos.compare_spec ma mc);
    simpl; try congruence; try lia.
Qed.

Lemma float_le_lt_trans (a b c : float) :
  PrimFloat.leb a b = true -> PrimFloat.ltb b c = true -> PrimFloat.ltb a c = true.
Proof.
  rewrite FloatAxioms.leb_spec, !FloatAxioms.ltb_spec. unfold SFleb, SFltb.
  destruct (SFcompare (Prim2SF a) (Prim2SF b)) as [[ | | ]|] eqn:Hab; try discriminate;
    destruct (SFcompare (Prim2SF b) (Prim2SF c)) as [[ | | ]|] eqn:Hbc; try discriminate;
    intros _ _.
  - now rewrite (SFcompare_eq_lt_trans _ _ _ Hab Hbc).
  - now rewrite (SFcompare_lt_trans _ _ _ Hab Hbc).
Qed.

Lemma float_lt_le (a b : float) :
  PrimFloat.ltb a b = true -> PrimFloat.leb a b = true.
Proof.
  rewrite FloatAxioms.leb_spec, FloatAxioms.ltb_spec. unfold SFleb, SFltb.
  now destruct (SFcompare (Prim2SF a) (Prim2SF b)) as [[ | | ]|].
Qed.

Lemma float_le_not_gt (a b : float) :
  PrimFloat.leb a b = true -> PrimFloat.ltb b a = false.
Proof.
  rewrite FloatAxioms.leb_spec, FloatAxioms.ltb_spec. unfold SFleb, SFltb.
  rewrite (SFcompare_antisym (Prim2SF a) (Prim2SF b)).
  now destruct (SFcompare (Prim2SF a) (Prim2SF b)) as [[ | | ]|].
Qed.

Lemma float_lt_not_ge (a b : float) :
  PrimFloat.ltb a b = true -> PrimFloat.leb b a = false.
Proof.
  rewrite FloatAxioms.leb_spec, FloatAxioms.ltb_spec. unfold SFleb, SFltb.
  rewrite (SFcompare_antisym (Prim2SF a) (Prim2SF b)).
  now destruct (SFcompare (Prim2SF a) (Prim2SF b)) as [[ | | ]|].
Qed.

Lemma float_le_neq_lt (a b : float) :
  PrimFloat.leb a b = true -> PrimFloat.eqb b a = false -> PrimFloat.ltb a b = true.
Proof.
  rewrite FloatAxioms.leb_spec, FloatAxioms.ltb_spec, FloatAxioms.eqb_spec. unfold SFleb, SFltb, SFeqb.
  rewrite (SFcompare_antisym (Prim2SF a) (Prim2SF b)).
  now destruct (SFcompare (Prim2SF a) (Prim2SF b)) as [[ | | ]|].
Qed.

Lemma float_le_lt_le (a b c : float) :
  PrimFloat.leb a b = true -> PrimFloat.ltb b c = true -> PrimFloat.leb a c = true.
Proof. intros Hab Hbc. apply float_lt_le. exact (float_le_lt_trans a b c Hab Hbc). Qed.

End FloatOrder.

(** ** The sweep over all byte samples *)

Lemma range_spec (n : nat) (start k : Z) :
  start <= k < start + Z.of_nat n -> In k (range n start).
Proof.
  revert start. induction n as [|n IH]; intros start Hk.
  - simpl in Hk. lia.
  - simpl. destruct (Z.eq_dec start k) as [->|Hne]; [now left|right].
    apply IH. lia.
Qed.

Lemma byte_values_spec (k : Z) : is_byte k -> In k byte_values.
Proof.
  intros Hk. change byte_values with (range 256 0).
  apply range_spec. unfold is_byte in Hk. simpl. lia.
Qed.

Lemma red_terms_spec (k : Z) : is_byte k -> In (red_term k) red_terms.
Proof.
  intros Hk. replace red_terms with (map red_term byte_values) by (vm_compute; reflexivity).
  apply in_map, byte_values_spec, Hk.
Qed.

Lemma green_terms_spec (k : Z) : is_byte k -> In (green_term k) green_terms.
Proof.
  intros Hk. replace green_terms with (map green_term byte_values) by (vm_compute; reflexivity).
  apply in_map, byte_values_spec, Hk.
Qed.

Lemma blue_terms_spec (k : Z) : is_byte k -> In (blue_term k) blue_terms.
Proof.
  intros Hk. replace blue_terms with (map blue_term byte_values) by (vm_compute; reflexivity).
  apply in_map, byte_values_spec, Hk.
Qed.

Lemma red_sweep :
  forallb (fun x =>
    forallb (fun y =>
      forallb (fun z => finite_root x y z) blue_terms) green_terms) red_terms = true.
Proof. vm_compute. reflexivity. Qed.

(** For every byte sample, the distance to the first reference is an ordinary
    number: neither infinite nor NaN. *)
Lemma red_dist_finite (sample : rgb_t) :
  rgb_bytes sample ->
  PrimFloat.ltb (main.color_dist sample (255, 0, 0)) Py.inf = true.
Proof.
  destruct sample as [[r g] b]. intros (Hr & Hg & Hb).
  change (main.color_dist (r, g, b) (255, 0, 0))
    with (PrimFloat.sqrt (PrimFloat.add (PrimFloat.add (red_term r) (green_term g)) (blue_term b))).
  pose proof red_sweep as Hs.
  rewrite forallb_forall in Hs. specialize (Hs _ (red_terms_spec r Hr)).
  rewrite forallb_forall in Hs. specialize (Hs _ (green_terms_spec g Hg)).
  rewrite forallb_forall in Hs. exact (Hs _ (blue_terms_spec b Hb)).
Qed.

(** ** The classifier loop *)

Section Classifier.

Variable sample : rgb_t.

Let step := main.closest_color_step sample.
Let dist := main.color_dist sample.

(** The name the loop ends with is the one it started with or one of the
    table. *)
Lemma scan_name (table : list color_entry) (st : string * float) :
  fst (fold_left step table st) = fst st
  \/ In (fst (fold_left step table st)) (map fst table).
Proof.
  revert st. induction table as [|[name ref] table IH]; intros [bn bd]; simpl.
  - now left.
  - destruct (IH (step (bn, bd) (name, ref))) as [H|H].
    + unfold step, main.closest_color_step in H |- *.
      destruct (PrimFloat.ltb (main.color_dist sample ref) bd); simpl in H.
      * right. left. now rewrite H.
      * left. exact H.
    + right. right. exact H.
Qed.

(** Once the minimum is held, no later reference replaces it. *)
Lemma scan_keeps (table : list color_entry) (bn : string) (bd : float) :
  (forall e, In e table -> PrimFloat.leb bd (dist (snd e)) = true) ->
  fold_left step table (bn, bd) = (bn, bd).
Proof.
  induction table as [|[name ref] table IH]; intros Hmin; simpl.
  - reflexivity.
  - rewrite (float_le_not_gt bd (main.color_dist sample ref)).
    + apply IH. intros e He. apply Hmin. now right.
    + apply (Hmin (name, ref)). now left.
Qed.

(** While only strictly farther references are met, the running minimum
    stays strictly above [d]. *)
Lemma scan_above (d : float) (table : list color_entry) (st : string * float) :
  PrimFloat.ltb d (snd st) = true ->
  (forall e, In e table -> PrimFloat.ltb d (dist (snd e)) = true) ->
  PrimFloat.ltb d (snd (fold_left step table st)) = true.
Proof.
  revert st. induction table as [|[name ref] table IH]; intros [bn bd] Hst Hfar; simpl.
  - exact Hst.
  - apply IH.
    + unfold step, main.closest_color_step.
      destruct (PrimFloat.ltb (main.color_dist sample ref) bd); simpl.
      * apply (Hfar (name, ref)). now left.
      * exact Hst.
    + intros e He. apply Hfar. now right.
Qed.

End Classifier.

(** On a byte sample the first reference always replaces the sentinel. *)
Lemma closest_color_first (sample : rgb_t) :
  rgb_bytes sample ->
  main.closest_color sample =
  fst (fold_left (main.closest_color_step sample) (tl main.COLOR_MAP)
         ("red", main.color_dist sample (255, 0, 0))).
Proof.
  intros Hbytes. unfold main.closest_color, main.closest_color_in.
  change main.COLOR_MAP with (("red", (255, 0, 0)) :: tl main.COLOR_MAP).
  cbn [fold_left]. unfold main.closest_color_step at 2.
  now rewrite (red_dist_finite sample Hbytes).
Qed.

(** ** Claims about the classifier *)

(** C3: on each of the eight reference triples of [COLOR_MAP] the classifier
    answers that reference's own name; in particular (255,0,0) is "red" and
    (255,255,255) is "white". *)
Theorem C3_exact_reference_is_named :
  List.length main.COLOR_MAP = 8%nat
  /\ Forall (fun e : color_entry => main.closest_color (snd e) = fst e) main.COLOR_MAP
  /\ main.closest_color (255, 0, 0) = "red"
  /\ main.closest_color (255, 255, 255) = "white".
Proof.
  split; [reflexivity|].
  split; [|split]; [| vm_compute; reflexivity ..].
  unfold main.COLOR_MAP. repeat constructor; vm_compute; reflexivity.
Qed.

(** C8: with the fixed table, every byte sample is given the name of a table
    entry and never the sentinel "unknown"; the sentinel is what the same loop
    returns over an empty table. *)
Theorem C8_always_a_table_name (sample : rgb_t) :
  rgb_bytes sample ->
  In (main.closest_color sample) (map fst main.COLOR_MAP)
  /\ main.closest_color sample <> "unknown"
  /\ main.closest_color_in [] sample = "unknown".
Proof.
  intros Hbytes.
  assert (Hin : In (main.closest_color sample) (map fst main.COLOR_MAP)).
  { rewrite (closest_color_first sample Hbytes).
    destruct (scan_name sample (tl main.COLOR_MAP)
                ("red", main.color_dist sample (255, 0, 0))) as [H|H].
    - rewrite H. now left.
    - right. exact H. }
  split; [exact Hin|split; [|reflexivity]].
  intros Hunk. rewrite Hunk in Hin. simpl in Hin.
  repeat (destruct Hin as [Hin|Hin]; [discriminate Hin|]). exact Hin.
Qed.

Lemma C8_always_a_table_name_witness :
  In (main.closest_color (12, 200, 34)) (map fst main.COLOR_MAP)
  /\ main.closest_color (12, 200, 34) <> "unknown"
  /\ main.closest_color_in [] (12, 200, 34) = "unknown".
Proof.
  apply (C8_always_a_table_name (12, 200, 34)).
  unfold rgb_bytes, is_byte. lia.
Defined.

(** C4: on every byte sample, a reference that attains the minimal weighted
    distance and is the earliest of the table to attain it (every earlier
    reference lies at a different distance) is the one the classifier names;
    so among references at the same minimal distance the earliest wins. *)
Theorem C4_first_minimizer_wins (sample : rgb_t) (i : nat) (name : string) (ref : rgb_t) :
  rgb_bytes sample ->
  nth_error main.COLOR_MAP i = Some (name, ref) ->
  (forall j e, nth_error main.COLOR_MAP j = Some e ->
     PrimFloat.leb (main.color_dist sample ref) (main.color_dist sample (snd e)) = true) ->
  (forall j e, (j < i)%nat -> nth_error main.COLOR_MAP j = Some e ->
     PrimFloat.eqb (main.color_dist sample (snd e)) (main.color_dist sample ref) = false) ->
  main.closest_color sample = name.
Proof.
  intros Hbytes Hi Hmin Hfirst.
  set (d := main.color_dist sample ref) in *.
  assert (Hfin : PrimFloat.ltb d Py.inf = true).
  { apply (float_le_lt_trans d (main.color_dist sample (255, 0, 0))).
    - exact (Hmin 0%nat ("red", (255, 0, 0)) eq_refl).
    - exact (red_dist_finite sample Hbytes). }
  destruct (nth_error_split _ _ Hi) as (before & after & Hsplit & Hlen).
  unfold main.closest_color, main.closest_color_in.
  rewrite Hsplit, fold_left_app. cbn [fold_left].
  assert (Habove : PrimFloat.ltb d
            (snd (fold_left (main.closest_color_step sample) before ("unknown", Py.inf))) = true).
  { apply scan_above; [exact Hfin|].
    intros e He. destruct (In_nth_error _ _ He) as [j Hj].
    assert (Hlt : (j < i)%nat).
    { rewrite <- Hlen. apply nth_error_Some. now rewrite Hj. }
    assert (Hj' : nth_error main.COLOR_MAP j = Some e).
    { rewrite Hsplit, nth_error_app1; [exact Hj|now rewrite Hlen]. }
    apply float_le_neq_lt; [exact (Hmin j e Hj')|exact (Hfirst j e Hlt Hj')]. }
  destruct (fold_left (main.closest_color_step sample) before ("unknown", Py.inf))
    as [bn bd]. simpl in Habove.
  unfold main.closest_color_step at 2. fold d. rewrite Habove.
  rewrite scan_keeps; [reflexivity|].
  intros e He. destruct (In_nth_error main.COLOR_MAP e) as [j Hj].
  - rewrite Hsplit. apply in_or_app. right. now right.
  - exact (Hmin j e Hj).
Qed.

(** At (191, 0, 255) "indigo" and "violet" are at the same minimal distance;
    the classifier answers "indigo", the earlier of the two. *)
Lemma C4_first_minimizer_wins_witness :
  PrimFloat.eqb (main.color_dist (191, 0, 255) (127, 0, 255))
                (main.color_dist (191, 0, 255) (255, 0, 255)) = true
  /\ main.closest_color (191, 0, 255) = "indigo".
Proof.
  split; [vm_compute; reflexivity|].
  apply (C4_first_minimizer_wins (191, 0, 255) 5%nat "indigo" (127, 0, 255)).
  - unfold rgb_bytes, is_byte. lia.
  - reflexivity.
  - intros j e Hj.
    do 8 (destruct j as [|j]; [injection Hj as <-; vm_compute; reflexivity|]).
    destruct j; discriminate Hj.
  - intros j e Hlt Hj.
    do 5 (destruct j as [|j]; [injection Hj as <-; vm_compute; reflexivity|]).
    lia.
Defined.

(** ** The ultrasonic measurement *)

(** A polling loop stops before its fuel: it ends when the pin changes level
    or when the script of the echo line or of the clock has no answer left. *)
Lemma while_fuel_enough (pin k : Z) (fuel : nat) :
  forall (x : option float) (w : world),
    (List.length (echo_line w) < fuel)%nat ->
    forall w',
      while_fuel fuel (v <- gpio_input pin ;; ret (v =? k)) time_time x w <> OutOfFuel w'.
Proof.
  induction fuel as [|fuel IH]; intros x w Hlen w'; [inversion Hlen|].
  cbn [while_fuel]. unfold bind at 1 2. unfold gpio_input.
  destruct (echo_line w) as [|level later] eqn:Hecho; [discriminate|].
  unfold ret at 1.
  destruct ((if level then 1 else 0) =? k); [|discriminate].
  unfold bind, time_time. cbn [wall_clock].
  destruct (wall_clock w) as [|now clock]; [discriminate|].
  apply IH. cbn [echo_line]. simpl in Hlen. lia.
Qed.

Lemma while_polling_never_out_of_fuel (pin k : Z) (x : option float) (w w' : world) :
  while_polling (v <- gpio_input pin ;; ret (v =? k)) time_time x w <> OutOfFuel w'.
Proof. unfold while_polling. apply while_fuel_enough. lia. Qed.

(** [distance_cm] never runs out of fuel: it returns, raises, or waits for a
    reading the script does not hold. *)
Lemma distance_cm_never_out_of_fuel (w w' : world) : main.distance_cm w <> OutOfFuel w'.
Proof.
  unfold main.distance_cm.
  unfold bind at 1 2 3. unfold gpio_output, time_sleep, emit.
  unfold bind at 1.
  match goal with
  | |- context [while_polling ?c ?b ?x ?w0] =>
      pose proof (while_polling_never_out_of_fuel main.ECHO 0 x w0) as H1;
      destruct (while_polling c b x w0) as [pulse_start w1|e w1|w1|w1]
  end; try discriminate; [|now specialize (H1 w1)].
  unfold bind at 1.
  match goal with
  | |- context [while_polling ?c ?b ?x ?w0] =>
      pose proof (while_polling_never_out_of_fuel main.ECHO 1 x w0) as H2;
      destruct (while_polling c b x w0) as [pulse_end w2|e w2|w2|w2]
  end; try discriminate; [|now specialize (H2 w2)].
  destruct pulse_end, pulse_start; discriminate.
Qed.

(** A run of the measurement: the echo is low for two polls, high for two. *)
Example distance_cm_run :
  main.distance_cm
    (mkWorld true [false; false; true; true; true; false]
             [1.0%float; 1.5%float; 2.0%float; 2.25%float; 2.5%float] [] []) =
  Ret 12862.5%float
      (mkWorld true [] [2.5%float] []
         [GpioOutput 17 true; Sleep 0.00001%float; GpioOutput 17 false;
          GpioInput 13 0; TimeRead 1.0%float; GpioInput 13 0; TimeRead 1.5%float;
          GpioInput 13 1;
          GpioInput 13 1; TimeRead 2.0%float; GpioInput 13 1; TimeRead 2.25%float;
          GpioInput 13 0]).
Proof. vm_compute. reflexivity. Qed.

(** An echo line that is already high leaves [pulse_start] unbound. *)
Example distance_cm_unbound :
  main.distance_cm (mkWorld true [true; true; false] [1.0%float; 1.5%float] [] []) =
  Raise UnboundLocalError
        (mkWorld true [] [1.5%float] []
           [GpioOutput 17 true; Sleep 0.00001%float; GpioOutput 17 false;
            GpioInput 13 1; GpioInput 13 1; TimeRead 1.0%float; GpioInput 13 0]).
Proof. vm_compute. reflexivity. Qed.

(** An active iteration: green is spoken, then the distance drives the beep. *)
Example main_iteration_run :
  main.main_iteration
    (mkWorld true [false; true; true; false] [1.0%float; 1.0078125%float]
             [(0, 255, 0)] []) =
  Ret tt
      (mkWorld true [] [] []
         [ColorRead (0, 255, 0); Speak "green";
          GpioOutput 17 true; Sleep 0.00001%float; GpioOutput 17 false;
          GpioInput 13 0; TimeRead 1.0%float; GpioInput 13 1;
          GpioInput 13 1; TimeRead 1.0078125%float; GpioInput 13 0;
          Sleep 1.00%float; BuzzerStart 10; Sleep 0.1%float; BuzzerStop]).
Proof. vm_compute. reflexivity. Qed.

(** ** The diagnostic tools against the main program *)

Lemma test_color_same_loop (table : list color_entry) (sample : rgb_t) :
  test_color.closest_color_in table sample = main.closest_color_in table sample.
Proof. reflexivity. Qed.

Lemma test_color_table :
  test_color.COLOR_MAP = (main.COLOR_MAP ++ [("black", (0, 0, 0))])%list.
Proof. reflexivity. Qed.

Lemma test_ultrasonic_same_measure : test_ultrasonic.distance_cm = main.distance_cm.
Proof. reflexivity. Qed.

(** C7 as claimed fails: on the sample (0, 0, 0) the diagnostic classifier,
    whose table has a ninth entry, answers "black" and the main one "blue". *)
Lemma C7_black_sample_differs :
  test_color.closest_color (0, 0, 0) <> main.closest_color (0, 0, 0).
Proof. vm_compute. discriminate. Qed.

(** C7, amended: the diagnostic [distance_cm] is the main program's; the
    diagnostic classifier runs the same loop over the main table extended by a
    final ("black", (0,0,0)) entry, so on every sample it either agrees with
    the main classifier or answers "black". *)
Theorem C7_tools_duplicate_up_to_black :
  (forall w : world, test_ultrasonic.distance_cm w = main.distance_cm w)
  /\ test_color.COLOR_MAP = (main.COLOR_MAP ++ [("black", (0, 0, 0))])%list
  /\ (forall table sample,
        test_color.closest_color_in table sample = main.closest_color_in table sample)
  /\ (forall sample : rgb_t,
        test_color.closest_color sample = main.closest_color sample
        \/ test_color.closest_color sample = "black").
Proof.
  split; [|split; [|split]].
  - intros w. now rewrite test_ultrasonic_same_measure.
  - exact test_color_table.
  - exact test_color_same_loop.
  - intros sample. unfold test_color.closest_color.
    rewrite test_color_same_loop, test_color_table.
    unfold main.closest_color, main.closest_color_in.
    rewrite fold_left_app. cbn [fold_left].
    destruct (fold_left (main.closest_color_step sample) main.COLOR_MAP ("unknown", Py.inf))
      as [bn bd].
    unfold main.closest_color_step.
    destruct (PrimFloat.ltb (main.color_dist sample (0, 0, 0)) bd); [now right|now left].
Qed.

(** ** The distance-to-delay table *)

Section BeepTable.

Lemma beep_entry_in_table (table : list (Z * float)) (dist : float) (e : Z * float) :
  main.beep_entry_in table dist = Some e -> In e table.
Proof.
  induction table as [|[threshold t] rest IH]; simpl; [discriminate|].
  destruct (Py.float_ge_int dist threshold).
  - intros [= <-]. now left.
  - intros H. right. exact (IH H).
Qed.

(** A threshold reached by a distance is reached by every larger one. *)
Lemma float_ge_int_mono (d1 d2 : float) (threshold : Z) :
  PrimFloat.ltb d1 d2 = true ->
  Py.float_ge_int d1 threshold = true -> Py.float_ge_int d2 threshold = true.
Proof.
  unfold Py.float_ge_int. intros Hlt Hge.
  exact (float_le_lt_le _ d1 d2 Hge Hlt).
Qed.

Lemma beep_entry_in_mono (table : list (Z * float)) :
  delays_descend table ->
  forall d1 d2 e1 e2,
    PrimFloat.ltb d1 d2 = true ->
    main.beep_entry_in table d1 = Some e1 ->
    main.beep_entry_in table d2 = Some e2 ->
    e1 <> e2 ->
    PrimFloat.leb (snd e1) (snd e2) = true.
Proof.
  induction 1 as [|[threshold t] rest Hsorted IH Hhead];
    intros d1 d2 e1 e2 Hlt H1 H2 Hne; simpl in H1, H2; [discriminate|].
  destruct (Py.float_ge_int d1 threshold) eqn:G1.
  - rewrite (float_ge_int_mono d1 d2 threshold Hlt G1) in H2. congruence.
  - destruct (Py.float_ge_int d2 threshold) eqn:G2.
    + injection H2 as <-.
      rewrite Forall_forall in Hhead.
      exact (Hhead e1 (beep_entry_in_table rest d1 e1 H1)).
    + exact (IH d1 d2 e1 e2 Hlt H1 H2 Hne).
Qed.

Lemma BEEP_TABLE_delays_descend : delays_descend main.BEEP_TABLE.
Proof.
  unfold delays_descend, main.BEEP_TABLE.
  repeat (constructor; [|repeat constructor; vm_compute; reflexivity]).
  constructor.
Qed.

Lemma beep_entry_in_negative (table : list (Z * float)) (dist : float) :
  thresholds_nonnegative table ->
  PrimFloat.ltb dist 0%float = true ->
  main.beep_entry_in table dist = None.
Proof.
  intros Htable Hneg.
  induction Htable as [|[threshold t] rest Hthr _ IH]; simpl; [reflexivity|].
  unfold Py.float_ge_int.
  destruct (PrimFloat.leb (Py.float_of_int threshold) dist) eqn:Hge; [|exact IH].
  simpl in Hthr.
  rewrite (float_le_lt_trans _ dist 0%float Hge Hneg) in Hthr. discriminate Hthr.
Qed.

Lemma BEEP_TABLE_thresholds_nonnegative : thresholds_nonnegative main.BEEP_TABLE.
Proof.
  unfold thresholds_nonnegative, main.BEEP_TABLE.
  repeat constructor; vm_compute; reflexivity.
Qed.

Lemma wait_time_negative (dist : float) :
  PrimFloat.ltb dist 0%float = true -> main.wait_time_for dist = None.
Proof.
  intros Hneg. unfold main.wait_time_for, main.beep_entry.
  now rewrite (beep_entry_in_negative _ dist BEEP_TABLE_thresholds_nonnegative Hneg).
Qed.

End BeepTable.

(** ** Claims about the proximity feedback *)

(** C1 as claimed fails: each entry of [BEEP_TABLE] is a floor, so 100 falls
    in the band of 90 and resolves 0.75, not 1.00; likewise 75, 45 and 20
    resolve the delay one band below the claimed one, and -5 resolves none. *)
Lemma C1_claimed_delays_fail :
  main.wait_time_for 100%float <> Some 1.00%float
  /\ main.wait_time_for 75%float <> Some 0.75%float
  /\ main.wait_time_for 45%float <> Some 0.50%float
  /\ main.wait_time_for 20%float <> Some 0.25%float
  /\ main.wait_time_for (-5)%float <> Some 0.07%float.
Proof. repeat split; vm_compute; discriminate. Qed.

(** C1, amended: the delay resolved at 200, 100, 75, 45 and 20 is 1.25, 0.75,
    0.50, 0.25 and 0.07; at -5 no delay is resolved and [beep_for_distance]
    returns at once, leaving the world as it was. *)
Theorem C1_tabulated_delays :
  main.wait_time_for 200%float = Some 1.25%float
  /\ main.wait_time_for 100%float = Some 0.75%float
  /\ main.wait_time_for 75%float = Some 0.50%float
  /\ main.wait_time_for 45%float = Some 0.25%float
  /\ main.wait_time_for 20%float = Some 0.07%float
  /\ main.wait_time_for (-5)%float = None
  /\ (forall w, main.beep_for_distance (-5)%float w = Ret tt w).
Proof.
  repeat split; vm_compute; reflexivity.
Qed.

(** C2 as claimed fails: the negative distance -5 resolves no delay. *)
Lemma C2_negative_distance_unmatched :
  ~ (forall dist : float, main.wait_time_for dist <> None)
  /\ main.wait_time_for (-5)%float = None.
Proof.
  split; [|vm_compute; reflexivity].
  intros H. apply (H (-5)%float). vm_compute. reflexivity.
Qed.

(** C2, amended: every distance that is at least zero matches a table entry
    and so resolves one of the table's delays; every negative distance
    matches no entry, the 0-floor included, and resolves no delay. *)
Theorem C2_delay_resolved_iff_nonnegative (dist : float) :
  (PrimFloat.leb 0%float dist = true ->
     exists e, main.beep_entry dist = Some e
               /\ In e main.BEEP_TABLE
               /\ main.wait_time_for dist = Some (snd e))
  /\ (PrimFloat.ltb dist 0%float = true -> main.wait_time_for dist = None).
Proof.
  split; [|exact (wait_time_negative dist)].
  intros Hge.
  assert (Hsome : exists e, main.beep_entry dist = Some e).
  { unfold main.beep_entry, main.BEEP_TABLE, main.beep_entry_in.
    repeat match goal with
           | |- context [Py.float_ge_int dist ?k] =>
               destruct (Py.float_ge_int dist k) eqn:?; [eexists; reflexivity|]
           end.
    match goal with
    | H : Py.float_ge_int dist 0 = false |- _ =>
        unfold Py.float_ge_int in H;
        change (Py.float_of_int 0) with 0%float in H;
        rewrite Hge in H; discriminate H
    end. }
  destruct Hsome as [e He]. exists e. split; [exact He|split].
  - exact (beep_entry_in_table _ _ _ He).
  - unfold main.wait_time_for. rewrite He. now destruct e.
Qed.

Lemma C2_delay_resolved_iff_nonnegative_witness :
  (exists e, main.beep_entry 45%float = Some e
             /\ In e main.BEEP_TABLE
             /\ main.wait_time_for 45%float = Some (snd e))
  /\ main.wait_time_for (-0.5)%float = None.
Proof.
  split.
  - apply (proj1 (C2_delay_resolved_iff_nonnegative 45%float)). vm_compute. reflexivity.
  - apply (proj2 (C2_delay_resolved_iff_nonnegative (-0.5)%float)). vm_compute. reflexivity.
Defined.

(** C5: if [d1 < d2] and the two distances select different entries of
    [BEEP_TABLE], the delay of [d1] is at most the delay of [d2]. *)
Theorem C5_closer_never_slower (d1 d2 : float) (e1 e2 : Z * float) :
  PrimFloat.ltb d1 d2 = true ->
  main.beep_entry d1 = Some e1 ->
  main.beep_entry d2 = Some e2 ->
  e1 <> e2 ->
  main.wait_time_for d1 = Some (snd e1)
  /\ main.wait_time_for d2 = Some (snd e2)
  /\ PrimFloat.leb (snd e1) (snd e2) = true.
Proof.
  intros Hlt H1 H2 Hne. unfold main.wait_time_for. rewrite H1, H2.
  split; [now destruct e1|split; [now destruct e2|]].
  exact (beep_entry_in_mono _ BEEP_TABLE_delays_descend d1 d2 e1 e2 Hlt H1 H2 Hne).
Qed.

Lemma C5_closer_never_slower_witness :
  main.wait_time_for 45%float = Some 0.25%float
  /\ main.wait_time_for 100%float = Some 0.75%float
  /\ PrimFloat.leb 0.25%float 0.75%float = true.
Proof.
  apply (C5_closer_never_slower 45%float 100%float (30, 0.25%float) (90, 0.75%float)).
  - vm_compute. reflexivity.
  - vm_compute. reflexivity.
  - vm_compute. reflexivity.
  - intros H. discriminate H.
Defined.

(** C10: for every strictly negative distance [beep_for_distance] selects no
    entry and returns at once: the world, its log included, is unchanged, so
    nothing is slept and the buzzer is neither started nor stopped. *)
Theorem C10_negative_distance_is_silent (dist : float) (w : world) :
  PrimFloat.ltb dist 0%float = true ->
  main.beep_entry dist = None
  /\ main.wait_time_for dist = None
  /\ main.beep_for_distance dist w = Ret tt w.
Proof.
  intros Hneg.
  pose proof (beep_entry_in_negative _ dist BEEP_TABLE_thresholds_nonnegative Hneg) as Hnone.
  split; [exact Hnone|].
  unfold main.beep_for_distance. rewrite (wait_time_negative dist Hneg).
  split; reflexivity.
Qed.

Lemma C10_negative_distance_is_silent_witness :
  main.beep_entry (-5)%float = None
  /\ main.wait_time_for (-5)%float = None
  /\ main.beep_for_distance (-5)%float (mkWorld true [] [] [] []) = Ret tt (mkWorld true [] [] [] []).
Proof.
  apply (C10_negative_distance_is_silent (-5)%float (mkWorld true [] [] [] [])).
  vm_compute. reflexivity.
Defined.

(** ** Claims about the main loop and the button *)

Lemma paused_iteration (w : world) :
  active w = false ->
  main.main_iteration w =
  Ret tt (mkWorld false (echo_line w) (wall_clock w) (color_sensor w)
                  (log w ++ [Sleep 0.1%float])).
Proof.
  intros Hoff. unfold main.main_iteration, bind, read_active.
  rewrite Hoff. simpl. unfold time_sleep, emit. now rewrite Hoff.
Qed.

(** C6: an iteration that reads the flag as false returns normally having
    only slept 0.1 s: whatever the sensor scripts hold, none of them is
    consumed and the log gains no read, speech or buzzer event.  The same
    holds for any number of consecutive iterations, which only re-read the
    flag between idle waits. *)
Theorem C6_paused_loop_only_idles (n : nat) (w : world) :
  active w = false ->
  main.main_iteration w =
    Ret tt (mkWorld false (echo_line w) (wall_clock w) (color_sensor w)
                    (log w ++ [Sleep 0.1%float]))
  /\ main.main_loop n w =
    Ret tt (mkWorld false (echo_line w) (wall_clock w) (color_sensor w)
                    (log w ++ repeat (Sleep 0.1%float) n)).
Proof.
  intros Hoff. split; [exact (paused_iteration w Hoff)|].
  revert w Hoff. induction n as [|n IH]; intros w Hoff.
  - simpl. rewrite app_nil_r. unfold ret. destruct w; simpl in *. now subst.
  - cbn [main.main_loop]. unfold bind at 1. rewrite (paused_iteration w Hoff).
    rewrite IH by reflexivity. cbn [active echo_line wall_clock color_sensor log].
    now rewrite <- app_assoc.
Qed.

Lemma C6_paused_loop_only_idles_witness :
  main.main_iteration
    (mkWorld false [false; true; true; false] [1.0%float; 1.5%float] [(0, 255, 0)] []) =
    Ret tt (mkWorld false [false; true; true; false] [1.0%float; 1.5%float]
                    [(0, 255, 0)] [Sleep 0.1%float])
  /\ main.main_loop 3
    (mkWorld false [false; true; true; false] [1.0%float; 1.5%float] [(0, 255, 0)] []) =
    Ret tt (mkWorld false [false; true; true; false] [1.0%float; 1.5%float]
                    [(0, 255, 0)]
                    [Sleep 0.1%float; Sleep 0.1%float; Sleep 0.1%float]).
Proof.
  apply (C6_paused_loop_only_idles 3
           (mkWorld false [false; true; true; false] [1.0%float; 1.5%float]
                    [(0, 255, 0)] [])).
  reflexivity.
Defined.

Lemma on_button_toggles (channel : Z) (w : world) :
  main.on_button channel w =
  Ret tt (mkWorld (negb (active w)) (echo_line w) (wall_clock w) (color_sensor w) (log w)).
Proof. reflexivity. Qed.

Lemma edge_delivered (last : option Z) (now : Z) (w : world) :
  edge_accepted main.bouncetime last now = true ->
  falling_edge main.bouncetime main.on_button main.BUTTON_PIN (last, w) now =
  (Some now,
   mkWorld (negb (active w)) (echo_line w) (wall_clock w) (color_sensor w) (log w)).
Proof. intros Hacc. unfold falling_edge. now rewrite Hacc. Qed.

Lemma edge_suppressed (last : option Z) (now : Z) (w : world) :
  edge_accepted main.bouncetime last now = false ->
  falling_edge main.bouncetime main.on_button main.BUTTON_PIN (last, w) now = (last, w).
Proof. intros Hrej. unfold falling_edge. now rewrite Hrej. Qed.

(** C9: after an accepted falling edge at [t1], a second edge more than the
    200 ms window later is delivered too, and the two toggles return the flag
    to its original value (two calls of [on_button] restore the whole world);
    a second edge strictly inside the window is suppressed: the state is the
    one the first edge left, with the flag toggled once. *)
Theorem C9_toggle_twice_and_debounce (w : world) (last : option Z) (t1 t2 : Z) :
  edge_accepted main.bouncetime last t1 = true ->
  main.bouncetime = 200
  /\ world_of (main.on_button main.BUTTON_PIN
                 (world_of (main.on_button main.BUTTON_PIN w))) = w
  /\ (main.bouncetime < t2 - t1 ->
        button_edges [t1; t2] (last, w) = (Some t2, w))
  /\ (0 <= t2 - t1 < main.bouncetime ->
        button_edges [t1; t2] (last, w) = button_edges [t1] (last, w)
        /\ active (snd (button_edges [t1; t2] (last, w))) = negb (active w)).
Proof.
  intros Hacc. split; [reflexivity|]. split.
  { rewrite !on_button_toggles. simpl. rewrite negb_involutive. now destruct w. }
  unfold button_edges. cbn [fold_left]. rewrite (edge_delivered last t1 w Hacc).
  split.
  - intros Hfar. rewrite edge_delivered.
    + simpl. rewrite negb_involutive. now destruct w.
    + unfold edge_accepted. now apply Z.ltb_lt.
  - intros Hnear. rewrite edge_suppressed; [split; reflexivity|].
    unfold edge_accepted. apply Z.ltb_ge. lia.
Qed.

Lemma C9_toggle_twice_and_debounce_witness :
  button_edges [1000; 1500] (None, mkWorld true [] [] [] []) =
    (Some 1500, mkWorld true [] [] [] [])
  /\ button_edges [1000; 1150] (None, mkWorld true [] [] [] []) =
     button_edges [1000] (None, mkWorld true [] [] [] [])
  /\ active (snd (button_edges [1000; 1150] (None, mkWorld true [] [] [] []))) = false.
Proof.
  destruct (C9_toggle_twice_and_debounce (mkWorld true [] [] [] []) None 1000 1500 eq_refl)
    as (_ & _ & Hfar & _).
  destruct (C9_toggle_twice_and_debounce (mkWorld true [] [] [] []) None 1000 1150 eq_refl)
    as (_ & _ & _ & Hnear).
  split; [apply Hfar; unfold main.bouncetime; lia|].
  apply Hnear. unfold main.bouncetime. lia.
Defined.


(** * Further properties *)

(** ** More on the order of binary64 values *)

Lemma SFcompare_flip (a b : spec_float) (r : comparison) :
  SFcompare a b = Some r -> SFcompare b a = Some (CompOpp r).
Proof. intros H. now rewrite (SFcompare_antisym a b), H. Qed.

Lemma SFcompare_defined (a b c : spec_float) (r r' : comparison) :
  SFcompare a b = Some r -> SFcompare b c = Some r' -> SFcompare a c <> None.
Proof.
  destruct a as [sa|sa| |sa ma ea], b as [sb|sb| |sb mb eb], c as [sc|sc| |sc mc ec];
    simpl; discriminate.
Qed.

Lemma SFcompare_lt_eq_trans (a b c : spec_float) :
  SFcompare a b = Some Lt -> SFcompare b c = Some Eq -> SFcompare a c = Some Lt.
Proof.
  intros Hab Hbc.
  pose proof (SFcompare_flip _ _ _ Hbc) as Hcb. simpl in Hcb.
  destruct (SFcompare a c) as [[ | | ]|] eqn:Hac.
  - pose proof (SFcompare_eq_lt_trans c a b (SFcompare_flip _ _ _ Hac) Hab) as H.
    congruence.
  - reflexivity.
  - pose proof (SFcompare_lt_trans c a b (SFcompare_flip _ _ _ Hac) Hab) as H.
    congruence.
  - now destruct (SFcompare_defined a b c _ _ Hab Hbc).
Qed.

Lemma SFcompare_eq_trans (a b c : spec_float) :
  SFcompare a b = Some Eq -> SFcompare b c = Some Eq -> SFcompare a c = Some Eq.
Proof.
  intros Hab Hbc.
  destruct (SFcompare a c) as [[ | | ]|] eqn:Hac.
  - reflexivity.
  - pose proof (SFcompare_lt_eq_trans a c b Hac (SFcompare_flip _ _ _ Hbc)) as H.
    congruence.
  - pose proof (SFcompare_lt_eq_trans c a b (SFcompare_flip _ _ _ Hac) Hab) as H.
    pose proof (SFcompare_flip _ _ _ Hbc) as Hcb. simpl in Hcb. congruence.
  - now destruct (SFcompare_defined a b c _ _ Hab Hbc).
Qed.

Lemma float_le_trans (a b c : float) :
  PrimFloat.leb a b = true -> PrimFloat.leb b c = true -> PrimFloat.leb a c = true.
Proof.
  rewrite !FloatAxioms.leb_spec. unfold SFleb.
  destruct (SFcompare (Prim2SF a) (Prim2SF b)) as [[ | | ]|] eqn:Hab; try discriminate;
    destruct (SFcompare (Prim2SF b) (Prim2SF c)) as [[ | | ]|] eqn:Hbc; try discriminate;
    intros _ _.
  - now rewrite (SFcompare_eq_trans _ _ _ Hab Hbc).
  - now rewrite (SFcompare_eq_lt_trans _ _ _ Hab Hbc).
  - now rewrite (SFcompare_lt_eq_trans _ _ _ Hab Hbc).
  - now rewrite (SFcompare_lt_trans _ _ _ Hab Hbc).
Qed.

Lemma float_lt_le_trans (a b c : float) :
  PrimFloat.ltb a b = true -> PrimFloat.leb b c = true -> PrimFloat.ltb a c = true.
Proof.
  rewrite FloatAxioms.leb_spec, !FloatAxioms.ltb_spec. unfold SFleb, SFltb.
  destruct (SFcompare (Prim2SF a) (Prim2SF b)) as [[ | | ]|] eqn:Hab; try discriminate;
    destruct (SFcompare (Prim2SF b) (Prim2SF c)) as [[ | | ]|] eqn:Hbc; try discriminate;
    intros _ _.
  - now rewrite (SFcompare_lt_eq_trans _ _ _ Hab Hbc).
  - now rewrite (SFcompare_lt_trans _ _ _ Hab Hbc).
Qed.

(** Two numbers that are both below infinity are comparable. *)
Lemma float_total (a b : float) :
  PrimFloat.ltb a Py.inf = true -> PrimFloat.ltb b Py.inf = true ->
  PrimFloat.ltb a b = false -> PrimFloat.leb b a = true.
Proof.
  rewrite FloatAxioms.leb_spec, !FloatAxioms.ltb_spec. unfold SFleb, SFltb.
  rewrite (SFcompare_antisym (Prim2SF a) (Prim2SF b)).
  destruct (Prim2SF a) as [sa|sa| |sa ma ea], (Prim2SF b) as [sb|sb| |sb mb eb];
    simpl; try discriminate;
    try (destruct sa; simpl; congruence);
    try (destruct sb; simpl; congruence);
    try (destruct sa, sb; simpl; congruence).
  intros _ _.
  destruct sa, sb; simpl; try congruence;
    destruct (ea ?= eb); simpl; try congruence;
    destruct (Pos.compare_cont Eq ma mb); simpl; congruence.
Qed.

Lemma float_lt_trans (a b c : float) :
  PrimFloat.ltb a b = true -> PrimFloat.ltb b c = true -> PrimFloat.ltb a c = true.
Proof. intros Hab Hbc. exact (float_le_lt_trans a b c (float_lt_le a b Hab) Hbc). Qed.

Lemma float_le_refl (a : float) :
  PrimFloat.ltb a Py.inf = true -> PrimFloat.leb a a = true.
Proof.
  intros Ha. apply float_total; try assumption.
  destruct (PrimFloat.ltb a a) eqn:Haa; [|reflexivity].
  pose proof (float_le_not_gt a a (float_lt_le a a Haa)). congruence.
Qed.

(** ** The weighted distance between any two byte triples *)

Lemma color_dist_terms (r g b rr gg bb : Z) :
  main.color_dist (r, g, b) (rr, gg, bb) =
  PrimFloat.sqrt
    (PrimFloat.add
       (PrimFloat.add (channel_term main.RED_W (rr - r)) (channel_term main.GREEN_W (gg - g)))
       (channel_term main.BLUE_W (bb - b))).
Proof. reflexivity. Qed.

Lemma channel_term_neg_table (w : float) :
  map (fun j => channel_term w (- j)) byte_values = map (channel_term w) byte_values ->
  forall d, -255 <= d <= 255 -> channel_term w (- d) = channel_term w d.
Proof.
  intros Htable d Hd.
  rewrite map_ext_in_iff in Htable.
  destruct (Z_le_gt_dec 0 d) as [Hpos|Hneg].
  - apply (Htable d). apply byte_values_spec. unfold is_byte. lia.
  - symmetry. replace d with (- - d) at 1 by lia.
    apply (Htable (- d)). apply byte_values_spec. unfold is_byte. lia.
Qed.

Lemma red_term_neg (d : Z) :
  -255 <= d <= 255 -> channel_term main.RED_W (- d) = channel_term main.RED_W d.
Proof. apply channel_term_neg_table. vm_compute. reflexivity. Qed.

Lemma green_term_neg (d : Z) :
  -255 <= d <= 255 -> channel_term main.GREEN_W (- d) = channel_term main.GREEN_W d.
Proof. apply channel_term_neg_table. vm_compute. reflexivity. Qed.

Lemma blue_term_neg (d : Z) :
  -255 <= d <= 255 -> channel_term main.BLUE_W (- d) = channel_term main.BLUE_W d.
Proof. apply channel_term_neg_table. vm_compute. reflexivity. Qed.

Lemma red_terms_diff (d : Z) :
  -255 <= d <= 255 -> In (channel_term main.RED_W d) red_terms.
Proof.
  intros Hd. destruct (Z_le_gt_dec 0 d) as [Hpos|Hneg].
  - replace d with (255 - (255 - d)) by lia.
    apply (red_terms_spec (255 - d)). unfold is_byte. lia.
  - rewrite <- (red_term_neg d Hd). replace (- d) with (255 - (255 - - d)) by lia.
    apply (red_terms_spec (255 - - d)). unfold is_byte. lia.
Qed.

Lemma green_terms_diff (d : Z) :
  -255 <= d <= 255 -> In (channel_term main.GREEN_W d) green_terms.
Proof.
  intros Hd. destruct (Z_le_gt_dec d 0) as [Hneg|Hpos].
  - replace d with (0 - - d) by lia.
    apply (green_terms_spec (- d)). unfold is_byte. lia.
  - rewrite <- (green_term_neg d Hd). replace (- d) with (0 - d) by lia.
    apply (green_terms_spec d). unfold is_byte. lia.
Qed.

Lemma blue_terms_diff (d : Z) :
  -255 <= d <= 255 -> In (channel_term main.BLUE_W d) blue_terms.
Proof.
  intros Hd. destruct (Z_le_gt_dec d 0) as [Hneg|Hpos].
  - replace d with (0 - - d) by lia.
    apply (blue_terms_spec (- d)). unfold is_byte. lia.
  - rewrite <- (blue_term_neg d Hd). replace (- d) with (0 - d) by lia.
    apply (blue_terms_spec d). unfold is_byte. lia.
Qed.

Lemma positive_sweep :
  forallb (fun x =>
    forallb (fun y =>
      forallb (fun z => positive_root x y z) blue_terms) green_terms) red_terms = true.
Proof. vm_compute. reflexivity. Qed.

Lemma term_zero_only_table (w : float) :
  forallb (fun j => term_zero_only w j && term_zero_only w (- j)) byte_values = true ->
  forall d, -255 <= d <= 255 ->
    PrimFloat.eqb (channel_term w d) 0%float = true -> d = 0.
Proof.
  intros Htable d Hd Hzero. rewrite forallb_forall in Htable.
  assert (Hcheck : term_zero_only w d = true).
  { destruct (Z_le_gt_dec 0 d) as [Hpos|Hlt].
    - specialize (Htable d (byte_values_spec d ltac:(unfold is_byte; lia))).
      now apply andb_prop in Htable.
    - specialize (Htable (- d) (byte_values_spec (- d) ltac:(unfold is_byte; lia))).
      apply andb_prop in Htable. now rewrite Z.opp_involutive in Htable. }
  unfold term_zero_only in Hcheck. rewrite Hzero in Hcheck. simpl in Hcheck.
  rewrite orb_false_r in Hcheck. now apply Z.eqb_eq.
Qed.

Lemma red_term_zero (d : Z) :
  -255 <= d <= 255 -> PrimFloat.eqb (channel_term main.RED_W d) 0%float = true -> d = 0.
Proof. apply term_zero_only_table. vm_compute. reflexivity. Qed.

Lemma green_term_zero (d : Z) :
  -255 <= d <= 255 -> PrimFloat.eqb (channel_term main.GREEN_W d) 0%float = true -> d = 0.
Proof. apply term_zero_only_table. vm_compute. reflexivity. Qed.

Lemma blue_term_zero (d : Z) :
  -255 <= d <= 255 -> PrimFloat.eqb (channel_term main.BLUE_W d) 0%float = true -> d = 0.
Proof. apply term_zero_only_table. vm_compute. reflexivity. Qed.

Lemma byte_diff (a b : Z) : is_byte a -> is_byte b -> -255 <= b - a <= 255.
Proof. unfold is_byte. lia. Qed.

Lemma float_eq_zero_not_pos (x : float) :
  PrimFloat.eqb x 0%float = true -> PrimFloat.ltb 0%float x = false.
Proof.
  rewrite FloatAxioms.eqb_spec, FloatAxioms.ltb_spec. unfold SFeqb, SFltb.
  rewrite (SFcompare_antisym (Prim2SF x) (Prim2SF 0%float)).
  now destruct (SFcompare (Prim2SF x) (Prim2SF 0%float)) as [[ | | ]|].
Qed.

Lemma float_eq_zero_nonneg (x : float) :
  PrimFloat.eqb x 0%float = true -> PrimFloat.leb 0%float x = true.
Proof.
  rewrite FloatAxioms.eqb_spec, FloatAxioms.leb_spec. unfold SFeqb, SFleb.
  rewrite (SFcompare_antisym (Prim2SF x) (Prim2SF 0%float)).
  now destruct (SFcompare (Prim2SF x) (Prim2SF 0%float)) as [[ | | ]|].
Qed.

(** The two sweeps, read at the distance between two byte triples. *)
Lemma color_dist_sweeps (r g b rr gg bb : Z) :
  rgb_bytes (r, g, b) -> rgb_bytes (rr, gg, bb) ->
  PrimFloat.ltb (main.color_dist (r, g, b) (rr, gg, bb)) Py.inf = true
  /\ positive_root (channel_term main.RED_W (rr - r)) (channel_term main.GREEN_W (gg - g))
                   (channel_term main.BLUE_W (bb - b)) = true.
Proof.
  intros (Hr & Hg & Hb) (Hrr & Hgg & Hbb). rewrite color_dist_terms.
  pose proof (red_terms_diff _ (byte_diff r rr Hr Hrr)) as Hx.
  pose proof (green_terms_diff _ (byte_diff g gg Hg Hgg)) as Hy.
  pose proof (blue_terms_diff _ (byte_diff b bb Hb Hbb)) as Hz.
  split.
  - pose proof red_sweep as Hs.
    rewrite forallb_forall in Hs. specialize (Hs _ Hx).
    rewrite forallb_forall in Hs. specialize (Hs _ Hy).
    rewrite forallb_forall in Hs. exact (Hs _ Hz).
  - pose proof positive_sweep as Hs.
    rewrite forallb_forall in Hs. specialize (Hs _ Hx).
    rewrite forallb_forall in Hs. specialize (Hs _ Hy).
    rewrite forallb_forall in Hs. exact (Hs _ Hz).
Qed.

Lemma color_dist_finite (sample ref : rgb_t) :
  rgb_bytes sample -> rgb_bytes ref ->
  PrimFloat.ltb (main.color_dist sample ref) Py.inf = true.
Proof.
  destruct sample as [[r g] b], ref as [[rr gg] bb]. intros Hs Hr.
  exact (proj1 (color_dist_sweeps r g b rr gg bb Hs Hr)).
Qed.

Lemma color_dist_nonneg (sample ref : rgb_t) :
  rgb_bytes sample -> rgb_bytes ref ->
  PrimFloat.leb 0%float (main.color_dist sample ref) = true.
Proof.
  destruct sample as [[r g] b], ref as [[rr gg] bb]. intros Hs Hr.
  destruct (color_dist_sweeps r g b rr gg bb Hs Hr) as [_ Hroot].
  rewrite color_dist_terms.
  unfold positive_root in Hroot. apply orb_prop in Hroot. destruct Hroot as [Hpos|Hzero].
  - now apply float_lt_le.
  - apply andb_prop in Hzero. destruct Hzero as [_ Hzero].
    now apply float_eq_zero_nonneg.
Qed.

(** X1: between any two byte triples the weighted distance is an ordinary
    non-negative number: below infinity, hence not NaN, and at least zero, so
    neither [math.sqrt] nor the squares can fail on sensor samples. *)
Theorem X1_color_dist_finite_nonneg (sample ref : rgb_t) :
  rgb_bytes sample -> rgb_bytes ref ->
  PrimFloat.ltb (main.color_dist sample ref) Py.inf = true
  /\ PrimFloat.leb 0%float (main.color_dist sample ref) = true.
Proof.
  destruct sample as [[r g] b], ref as [[rr gg] bb]. intros Hs Hr.
  destruct (color_dist_sweeps r g b rr gg bb Hs Hr) as [Hfin Hroot].
  split; [exact Hfin|].
  rewrite color_dist_terms.
  unfold positive_root in Hroot. apply orb_prop in Hroot. destruct Hroot as [Hpos|Hzero].
  - now apply float_lt_le.
  - apply andb_prop in Hzero. destruct Hzero as [_ Hzero].
    now apply float_eq_zero_nonneg.
Qed.

Lemma X1_color_dist_finite_nonneg_witness :
  PrimFloat.ltb (main.color_dist (12, 200, 34) (127, 0, 255)) Py.inf = true
  /\ PrimFloat.leb 0%float (main.color_dist (12, 200, 34) (127, 0, 255)) = true.
Proof.
  apply (X1_color_dist_finite_nonneg (12, 200, 34) (127, 0, 255));
    unfold rgb_bytes, is_byte; lia.
Defined.

(** X2: the weighted distance does not depend on the order of its two byte
    triples. *)
Theorem X2_color_dist_symmetric (sample ref : rgb_t) :
  rgb_bytes sample -> rgb_bytes ref ->
  main.color_dist sample ref = main.color_dist ref sample.
Proof.
  destruct sample as [[r g] b], ref as [[rr gg] bb].
  intros (Hr & Hg & Hb) (Hrr & Hgg & Hbb). rewrite !color_dist_terms.
  rewrite <- (red_term_neg (rr - r) (byte_diff r rr Hr Hrr)).
  rewrite <- (green_term_neg (gg - g) (byte_diff g gg Hg Hgg)).
  rewrite <- (blue_term_neg (bb - b) (byte_diff b bb Hb Hbb)).
  now rewrite !Z.opp_sub_distr, !Z.add_opp_l.
Qed.

Lemma X2_color_dist_symmetric_witness :
  main.color_dist (12, 200, 34) (127, 0, 255) = main.color_dist (127, 0, 255) (12, 200, 34).
Proof.
  apply (X2_color_dist_symmetric (12, 200, 34) (127, 0, 255));
    unfold rgb_bytes, is_byte; lia.
Defined.

Lemma color_dist_zero_equal (sample ref : rgb_t) :
  rgb_bytes sample -> rgb_bytes ref ->
  PrimFloat.eqb (main.color_dist sample ref) 0%float = true -> sample = ref.
Proof.
  destruct sample as [[r g] b], ref as [[rr gg] bb]. intros Hs Hr Hzero.
  destruct (color_dist_sweeps r g b rr gg bb Hs Hr) as [_ Hroot].
  destruct Hs as (Hr1 & Hg1 & Hb1). destruct Hr as (Hr2 & Hg2 & Hb2).
  rewrite color_dist_terms in Hzero.
  unfold positive_root in Hroot. apply orb_prop in Hroot. destruct Hroot as [Hpos|Hall].
  - rewrite (float_eq_zero_not_pos _ Hzero) in Hpos. discriminate Hpos.
  - apply andb_prop in Hall. destruct Hall as [Hall _].
    apply andb_prop in Hall. destruct Hall as [Hall Hz].
    apply andb_prop in Hall. destruct Hall as [Hx Hy].
    pose proof (red_term_zero _ (byte_diff r rr Hr1 Hr2) Hx).
    pose proof (green_term_zero _ (byte_diff g gg Hg1 Hg2) Hy).
    pose proof (blue_term_zero _ (byte_diff b bb Hb1 Hb2) Hz).
    f_equal; [f_equal|]; lia.
Qed.

Lemma color_dist_self (c : rgb_t) : main.color_dist c c = 0%float.
Proof.
  destruct c as [[r g] b]. rewrite color_dist_terms, !Z.sub_diag. vm_compute. reflexivity.
Qed.

(** X3: between byte triples the weighted distance compares equal to zero
    exactly when the two triples are the same. *)
Theorem X3_color_dist_zero_iff_equal (sample ref : rgb_t) :
  rgb_bytes sample -> rgb_bytes ref ->
  (PrimFloat.eqb (main.color_dist sample ref) 0%float = true <-> sample = ref).
Proof.
  intros Hs Hr. split.
  - exact (color_dist_zero_equal sample ref Hs Hr).
  - intros <-. now rewrite color_dist_self.
Qed.

Lemma X3_color_dist_zero_iff_equal_witness :
  (PrimFloat.eqb (main.color_dist (127, 0, 255) (127, 0, 255)) 0%float = true
     <-> (127, 0, 255) = (127, 0, 255))
  /\ (PrimFloat.eqb (main.color_dist (127, 0, 254) (127, 0, 255)) 0%float = true
     <-> (127, 0, 254) = (127, 0, 255)).
Proof.
  split.
  - apply (X3_color_dist_zero_iff_equal (127, 0, 255) (127, 0, 255));
      unfold rgb_bytes, is_byte; lia.
  - apply (X3_color_dist_zero_iff_equal (127, 0, 254) (127, 0, 255));
      unfold rgb_bytes, is_byte; lia.
Defined.

(** ** The classifier returns the first nearest reference *)

Section FirstMinimum.

Variable sample : rgb_t.

Let step := main.closest_color_step sample.
Let dist := main.color_dist sample.

Lemma scan_state_step (seen : list color_entry) (st : string * float) (e : color_entry) :
  (forall e', In e' (seen ++ [e]) -> PrimFloat.ltb (dist (snd e')) Py.inf = true) ->
  scan_state_ok dist seen st ->
  scan_state_ok dist (seen ++ [e]) (step st e).
Proof.
  intros Hfin (before & ref & after & Hseen & Hbd & Hbefore & Hafter).
  destruct st as [bn bd], e as [name' ref']. simpl in Hseen, Hbd. subst bd.
  assert (Fref : PrimFloat.ltb (dist ref) Py.inf = true).
  { apply (Hfin (bn, ref)). rewrite Hseen. apply in_or_app. left.
    apply in_or_app. right. now left. }
  assert (Fnew : PrimFloat.ltb (dist ref') Py.inf = true).
  { apply (Hfin (name', ref')). apply in_or_app. right. now left. }
  unfold step, main.closest_color_step. fold dist.
  destruct (PrimFloat.ltb (dist ref') (dist ref)) eqn:Hlt.
  - exists seen, ref', []. simpl. repeat split; try reflexivity; [|intros e []].
    intros e He. rewrite Hseen in He.
    apply in_app_or in He. destruct He as [He|[<-|He]].
    + exact (float_lt_trans _ _ _ Hlt (Hbefore e He)).
    + exact Hlt.
    + exact (float_lt_le_trans _ _ _ Hlt (Hafter e He)).
  - exists before, ref, (after ++ [(name', ref')])%list. simpl.
    repeat split; try assumption.
    + rewrite Hseen, <- app_assoc. reflexivity.
    + intros e He. apply in_app_or in He. destruct He as [He|[<-|[]]].
      * exact (Hafter e He).
      * exact (float_total _ _ Fnew Fref Hlt).
Qed.

Lemma scan_state_fold (rest seen : list color_entry) (st : string * float) :
  (forall e, In e (seen ++ rest) -> PrimFloat.ltb (dist (snd e)) Py.inf = true) ->
  scan_state_ok dist seen st ->
  scan_state_ok dist (seen ++ rest) (fold_left step rest st).
Proof.
  revert seen st. induction rest as [|e rest IH]; intros seen st Hfin Hok.
  - now rewrite app_nil_r.
  - cbn [fold_left].
    replace (seen ++ e :: rest)%list with ((seen ++ [e]) ++ rest)%list
      by (now rewrite <- app_assoc).
    apply IH.
    + intros e' He'. apply Hfin. now rewrite <- app_assoc in He'.
    + apply scan_state_step; [|exact Hok].
      intros e' He'. apply Hfin. apply in_app_or in He'. apply in_or_app.
      destruct He' as [He'|[<-|[]]]; [now left|right; now left].
Qed.

Lemma closest_color_in_first_minimum (table : list color_entry) :
  table <> [] ->
  (forall e, In e table -> PrimFloat.ltb (dist (snd e)) Py.inf = true) ->
  first_minimum dist table (main.closest_color_in table sample).
Proof.
  destruct table as [|[name ref] rest]; [congruence|]. intros _ Hfin.
  unfold main.closest_color_in. cbn [fold_left].
  assert (Hfirst : main.closest_color_step sample ("unknown", Py.inf) (name, ref)
                   = (name, dist ref)).
  { unfold main.closest_color_step. fold dist.
    pose proof (Hfin (name, ref) (or_introl eq_refl)) as Hf. simpl in Hf.
    now rewrite Hf. }
  rewrite Hfirst.
  destruct (scan_state_fold rest [(name, ref)] (name, dist ref) Hfin)
    as (before & r & after & Hseen & _ & Hbefore & Hafter).
  - exists [], ref, []. simpl. repeat split; intros e [].
  - exists before, r, after. repeat split; assumption.
Qed.

End FirstMinimum.

Lemma table_dists_finite (table : list color_entry) (sample : rgb_t) :
  rgb_bytes sample ->
  Forall (fun e : color_entry => rgb_bytes (snd e)) table ->
  forall e, In e table -> PrimFloat.ltb (main.color_dist sample (snd e)) Py.inf = true.
Proof.
  intros Hs Htable e He. rewrite Forall_forall in Htable.
  exact (color_dist_finite sample (snd e) Hs (Htable e He)).
Qed.

Lemma COLOR_MAP_bytes : Forall (fun e : color_entry => rgb_bytes (snd e)) main.COLOR_MAP.
Proof. unfold main.COLOR_MAP. repeat constructor; unfold is_byte; simpl; lia. Qed.

Lemma test_COLOR_MAP_bytes :
  Forall (fun e : color_entry => rgb_bytes (snd e)) test_color.COLOR_MAP.
Proof. unfold test_color.COLOR_MAP. repeat constructor; unfold is_byte; simpl; lia. Qed.

(** X4: on every byte sample [closest_color] answers the name of the first
    entry of [COLOR_MAP] at minimal weighted distance: every earlier reference
    is strictly farther from the sample and no later one is nearer. *)
Theorem X4_closest_color_is_first_nearest (sample : rgb_t) :
  rgb_bytes sample ->
  first_minimum (main.color_dist sample) main.COLOR_MAP (main.closest_color sample).
Proof.
  intros Hs. unfold main.closest_color.
  apply closest_color_in_first_minimum; [discriminate|].
  exact (table_dists_finite _ sample Hs COLOR_MAP_bytes).
Qed.

Lemma X4_closest_color_is_first_nearest_witness :
  first_minimum (main.color_dist (191, 0, 255)) main.COLOR_MAP
                (main.closest_color (191, 0, 255)).
Proof.
  apply (X4_closest_color_is_first_nearest (191, 0, 255)).
  unfold rgb_bytes, is_byte. lia.
Defined.

(** X5: the diagnostic classifier of [tools/test_color.py] likewise answers,
    on every byte sample, the name of the first entry of its own nine-entry
    table at minimal weighted distance. *)
Theorem X5_test_color_is_first_nearest (sample : rgb_t) :
  rgb_bytes sample ->
  first_minimum (test_color.color_dist sample) test_color.COLOR_MAP
                (test_color.closest_color sample).
Proof.
  intros Hs. unfold test_color.closest_color.
  change (first_minimum (main.color_dist sample) test_color.COLOR_MAP
            (main.closest_color_in test_color.COLOR_MAP sample)).
  apply closest_color_in_first_minimum; [discriminate|].
  exact (table_dists_finite _ sample Hs test_COLOR_MAP_bytes).
Qed.

Lemma X5_test_color_is_first_nearest_witness :
  first_minimum (test_color.color_dist (3, 2, 1)) test_color.COLOR_MAP
                (test_color.closest_color (3, 2, 1)).
Proof.
  apply (X5_test_color_is_first_nearest (3, 2, 1)).
  unfold rgb_bytes, is_byte. lia.
Defined.

Lemma float_le_zero_eq (x : float) :
  PrimFloat.leb x 0%float = true -> PrimFloat.leb 0%float x = true ->
  PrimFloat.eqb x 0%float = true.
Proof.
  rewrite !FloatAxioms.leb_spec, FloatAxioms.eqb_spec. unfold SFleb, SFeqb.
  rewrite (SFcompare_antisym (Prim2SF x) (Prim2SF 0%float)).
  now destruct (SFcompare (Prim2SF x) (Prim2SF 0%float)) as [[ | | ]|].
Qed.

Lemma unique_reference (table : list color_entry) (a b : string) (ref : rgb_t) :
  NoDup (map snd table) -> In (a, ref) table -> In (b, ref) table -> a = b.
Proof.
  induction table as [|[n r] table IH]; simpl; intros Hnd Ha Hb; [contradiction|].
  inversion Hnd as [|? ? Hnotin Hnd']; subst.
  destruct Ha as [Ha|Ha], Hb as [Hb|Hb].
  - congruence.
  - exfalso. apply Hnotin. assert (r = ref) as -> by congruence.
    change ref with (snd (b, ref)). now apply in_map.
  - exfalso. apply Hnotin. assert (r = ref) as -> by congruence.
    change ref with (snd (a, ref)). now apply in_map.
  - exact (IH Hnd' Ha Hb).
Qed.

(** X6: over any table of byte references that lists no triple twice, the
    loop of [closest_color] answers, on a sample equal to a reference, that
    reference's name. *)
Theorem X6_exact_match_in_any_table (table : list color_entry) (name : string) (ref : rgb_t) :
  Forall (fun e : color_entry => rgb_bytes (snd e)) table ->
  NoDup (map snd table) ->
  In (name, ref) table ->
  main.closest_color_in table ref = name.
Proof.
  intros Hbytes Hnd Hin.
  assert (Href : rgb_bytes ref).
  { rewrite Forall_forall in Hbytes. exact (Hbytes (name, ref) Hin). }
  destruct (closest_color_in_first_minimum ref table) as (before & r & after & Hsplit & Hbefore & Hafter).
  { intros ->. contradiction. }
  { exact (table_dists_finite table ref Href Hbytes). }
  set (n := main.closest_color_in table ref) in *.
  assert (Hn : In (n, r) table).
  { rewrite Hsplit. apply in_or_app. right. now left. }
  assert (Hr : rgb_bytes r).
  { rewrite Forall_forall in Hbytes. exact (Hbytes (n, r) Hn). }
  assert (Hle : PrimFloat.leb (main.color_dist ref r) 0%float = true).
  { replace 0%float with (main.color_dist ref ref) by (apply color_dist_self).
    rewrite Hsplit in Hin. apply in_app_or in Hin. destruct Hin as [Hin|[Heq|Hin]].
    - apply float_lt_le. exact (Hbefore (name, ref) Hin).
    - injection Heq as _ ->. apply float_le_refl. rewrite color_dist_self. reflexivity.
    - exact (Hafter (name, ref) Hin). }
  assert (Hzero : PrimFloat.eqb (main.color_dist ref r) 0%float = true).
  { apply float_le_zero_eq; [exact Hle|].
    exact (color_dist_nonneg ref r Href Hr). }
  pose proof (color_dist_zero_equal ref r Href Hr Hzero) as <-.
  exact (unique_reference table n name ref Hnd Hn Hin).
Qed.

Lemma X6_exact_match_in_any_table_witness :
  main.closest_color_in test_color.COLOR_MAP (0, 0, 0) = "black".
Proof.
  apply (X6_exact_match_in_any_table test_color.COLOR_MAP "black" (0, 0, 0)).
  - exact test_COLOR_MAP_bytes.
  - unfold test_color.COLOR_MAP. simpl.
    repeat (constructor; [simpl; intros H; repeat (destruct H as [H|H]; [discriminate H|]); exact H|]).
    constructor.
  - unfold test_color.COLOR_MAP. simpl. tauto.
Defined.

(** ** One ultrasonic measurement, poll by poll *)

Lemma last_assigned_cons (t : float) (ts : list float) (x : option float) :
  last_assigned (t :: ts) x = last_assigned ts (Some t).
Proof.
  unfold last_assigned. simpl. destruct ts as [|t' ts]; [reflexivity|].
  simpl. revert t'. induction ts as [|t'' ts IH]; intros t'; [reflexivity|].
  simpl in *. exact (IH t'').
Qed.

Lemma last_assigned_snoc (ts : list float) (t : float) (x : option float) :
  last_assigned (ts ++ [t]) x = Some t.
Proof. unfold last_assigned. rewrite map_app. simpl. now rewrite last_last. Qed.

(** While the line stays at the polled level the loop makes one iteration per
    reading, each consuming one clock answer. *)
Lemma while_fuel_run (pin k : Z) (level : bool) :
  (level_value level =? k) = true ->
  forall (ts : list float) (fuel : nat) (x : option float) a e_rest c_rest cs lg,
    while_fuel (List.length ts + fuel) (pin_is pin k) time_time x
      (mkWorld a (repeat level (List.length ts) ++ e_rest) (ts ++ c_rest) cs lg) =
    while_fuel fuel (pin_is pin k) time_time (last_assigned ts x)
      (mkWorld a e_rest c_rest cs (lg ++ poll_log pin (level_value level) ts)).
Proof.
  intros Hk ts. induction ts as [|t ts IH]; intros fuel x a e_rest c_rest cs lg.
  - simpl. now rewrite app_nil_r.
  - cbn [List.length Nat.add repeat app while_fuel].
    unfold bind at 1, pin_is at 1. unfold bind at 1, gpio_input at 1.
    cbn [echo_line]. unfold ret at 1. fold (level_value level). rewrite Hk.
    unfold bind at 1, time_time at 1. cbn [wall_clock active echo_line color_sensor log].
    rewrite IH, last_assigned_cons. do 2 f_equal.
    unfold poll_log. simpl. now rewrite <- !app_assoc.
Qed.

(** A reading at the other level ends the loop. *)
Lemma while_fuel_exit (pin k : Z) (level : bool) (fuel : nat) (x : option float)
    a e_rest c cs lg :
  (level_value level =? k) = false ->
  while_fuel (S fuel) (pin_is pin k) time_time x (mkWorld a (level :: e_rest) c cs lg) =
  Ret x (mkWorld a e_rest c cs (lg ++ [GpioInput pin (level_value level)])).
Proof.
  intros Hk. cbn [while_fuel]. unfold bind at 1, pin_is at 1. unfold bind at 1, gpio_input at 1.
  cbn [echo_line]. unfold ret at 1. fold (level_value level). now rewrite Hk.
Qed.

Lemma while_polling_phase (pin k : Z) (level : bool) (ts : list float) (x : option float)
    a e_rest c_rest cs lg :
  (level_value level =? k) = true ->
  (level_value (negb level) =? k) = false ->
  while_polling (pin_is pin k) time_time x
    (mkWorld a (repeat level (List.length ts) ++ negb level :: e_rest) (ts ++ c_rest) cs lg) =
  Ret (last_assigned ts x)
      (mkWorld a e_rest c_rest cs
         (lg ++ poll_log pin (level_value level) ts ++ [GpioInput pin (level_value (negb level))])).
Proof.
  intros Hk Hnk. unfold while_polling. cbn [echo_line].
  rewrite length_app, repeat_length. cbn [List.length].
  replace (S (List.length ts + S (List.length e_rest)))
    with (List.length ts + S (S (List.length e_rest)))%nat by lia.
  rewrite (while_fuel_run pin k level Hk).
  rewrite (while_fuel_exit pin k (negb level) _ _ _ _ _ _ _ Hnk).
  now rewrite <- app_assoc.
Qed.

(** The measurement on an echo line that is low for [length ts_lo] polls,
    then high for one more poll than [length ts_hi], then low again. *)
Lemma distance_cm_pulse (ts_lo ts_hi : list float) a e_rest c_rest cs lg :
  main.distance_cm
    (mkWorld a
       (repeat false (List.length ts_lo) ++ true :: repeat true (List.length ts_hi)
          ++ false :: e_rest)
       (ts_lo ++ ts_hi ++ c_rest) cs lg) =
  let w' :=
    mkWorld a e_rest c_rest cs
      (lg ++ trigger_log ++ poll_log main.ECHO 0 ts_lo ++ [GpioInput main.ECHO 1]
          ++ poll_log main.ECHO 1 ts_hi ++ [GpioInput main.ECHO 0]) in
  match last_assigned ts_hi None, last_assigned ts_lo None with
  | Some e, Some s => Ret (PrimFloat.mul (PrimFloat.sub e s) 17150.0%float) w'
  | _, _ => Raise UnboundLocalError w'
  end.
Proof.
  unfold main.distance_cm.
  change (v <- gpio_input main.ECHO ;; ret (v =? 0)) with (pin_is main.ECHO 0).
  change (v <- gpio_input main.ECHO ;; ret (v =? 1)) with (pin_is main.ECHO 1).
  unfold bind at 1 2 3. unfold gpio_output, time_sleep, emit.
  cbn [active echo_line wall_clock color_sensor log].
  unfold bind at 1.
  rewrite (while_polling_phase main.ECHO 0 false ts_lo None a
             (repeat true (List.length ts_hi) ++ false :: e_rest) (ts_hi ++ c_rest) cs _
             eq_refl eq_refl).
  unfold bind at 1.
  rewrite (while_polling_phase main.ECHO 1 true ts_hi None a e_rest c_rest cs _
             eq_refl eq_refl).
  cbn [level_value negb].
  replace (((((lg ++ [GpioOutput main.TRIG true]) ++ [Sleep 0.00001%float])
              ++ [GpioOutput main.TRIG false])
             ++ poll_log main.ECHO 0 ts_lo ++ [GpioInput main.ECHO 1])
            ++ poll_log main.ECHO 1 ts_hi ++ [GpioInput main.ECHO 0])%list
    with (lg ++ trigger_log ++ poll_log main.ECHO 0 ts_lo ++ [GpioInput main.ECHO 1]
             ++ poll_log main.ECHO 1 ts_hi ++ [GpioInput main.ECHO 0])%list
    by (unfold trigger_log; rewrite <- !app_assoc; reflexivity).
  destruct (last_assigned ts_hi None), (last_assigned ts_lo None); reflexivity.
Qed.

(** X7: when the echo line is low for at least one poll and then high for at
    least two, [distance_cm] (of [main.py] and of [tools/test_ultrasonic.py])
    returns 17150 times the difference between the last clock answer of the
    high phase and the last clock answer of the low phase, having consumed
    exactly the polled readings and clock answers. *)
Theorem X7_distance_cm_measures_pulse (lo hi : list float) (t_start t_end : float)
    (a : bool) (e_rest : list bool) (c_rest : list float) (cs : list rgb_t)
    (lg : list event) :
  main.distance_cm
    (pulse_world a (lo ++ [t_start]) (hi ++ [t_end]) e_rest c_rest cs lg) =
  Ret (PrimFloat.mul (PrimFloat.sub t_end t_start) 17150.0%float)
      (mkWorld a e_rest c_rest cs
         (lg ++ measure_log (lo ++ [t_start]) (hi ++ [t_end])))
  /\ test_ultrasonic.distance_cm
       (pulse_world a (lo ++ [t_start]) (hi ++ [t_end]) e_rest c_rest cs lg) =
     Ret (PrimFloat.mul (PrimFloat.sub t_end t_start) 17150.0%float)
         (mkWorld a e_rest c_rest cs
            (lg ++ measure_log (lo ++ [t_start]) (hi ++ [t_end]))).
Proof.
  rewrite test_ultrasonic_same_measure.
  assert (H : main.distance_cm
    (pulse_world a (lo ++ [t_start]) (hi ++ [t_end]) e_rest c_rest cs lg) =
    Ret (PrimFloat.mul (PrimFloat.sub t_end t_start) 17150.0%float)
      (mkWorld a e_rest c_rest cs
         (lg ++ measure_log (lo ++ [t_start]) (hi ++ [t_end])))).
  { unfold pulse_world. rewrite distance_cm_pulse. cbv zeta.
    now rewrite !last_assigned_snoc. }
  split; exact H.
Qed.

(** X8: when the echo line is already high at the first poll, or is high for
    a single poll only, the local [pulse_start] or [pulse_end] is never
    assigned and [distance_cm] raises [UnboundLocalError] after its polling,
    instead of returning a distance. *)
Theorem X8_distance_cm_unbound_local (ts_lo ts_hi : list float)
    (a : bool) (e_rest : list bool) (c_rest : list float) (cs : list rgb_t)
    (lg : list event) :
  ts_lo = [] \/ ts_hi = [] ->
  main.distance_cm (pulse_world a ts_lo ts_hi e_rest c_rest cs lg) =
  Raise UnboundLocalError
        (mkWorld a e_rest c_rest cs (lg ++ measure_log ts_lo ts_hi))
  /\ test_ultrasonic.distance_cm (pulse_world a ts_lo ts_hi e_rest c_rest cs lg) =
     Raise UnboundLocalError
           (mkWorld a e_rest c_rest cs (lg ++ measure_log ts_lo ts_hi)).
Proof.
  intros Hempty. rewrite test_ultrasonic_same_measure.
  assert (H : main.distance_cm (pulse_world a ts_lo ts_hi e_rest c_rest cs lg) =
    Raise UnboundLocalError
      (mkWorld a e_rest c_rest cs (lg ++ measure_log ts_lo ts_hi))).
  { unfold pulse_world. rewrite distance_cm_pulse. cbv zeta.
    destruct Hempty as [-> | ->].
    - now destruct (last_assigned ts_hi None).
    - reflexivity. }
  split; exact H.
Qed.

Lemma X8_distance_cm_unbound_local_witness :
  main.distance_cm (pulse_world true [] [2.0%float] [] [] [] []) =
  Raise UnboundLocalError
        (mkWorld true [] [] [] ([] ++ measure_log [] [2.0%float]))
  /\ test_ultrasonic.distance_cm (pulse_world true [] [2.0%float] [] [] [] []) =
     Raise UnboundLocalError
           (mkWorld true [] [] [] ([] ++ measure_log [] [2.0%float])).
Proof.
  apply (X8_distance_cm_unbound_local [] [2.0%float] true [] [] [] []).
  left. reflexivity.
Defined.

(** As long as the echo line reads low the first loop keeps polling: on a
    script of low readings only it is still waiting when the script ends. *)
Lemma while_low_starves (echo : list bool) :
  Forall (fun level => level = false) echo ->
  forall (fuel : nat) (x : option float) (w : world),
    echo_line w = echo -> (List.length echo < fuel)%nat ->
    exists w', while_fuel fuel (pin_is main.ECHO 0) time_time x w = Starved w'.
Proof.
  induction 1 as [|level echo Hlow Hrest IH]; intros fuel x w Hecho Hfuel;
    (destruct fuel as [|fuel]; [inversion Hfuel|]);
    cbn [while_fuel]; unfold bind at 1, pin_is at 1; unfold bind at 1, gpio_input at 1;
    rewrite Hecho.
  - eexists. reflexivity.
  - subst level. unfold ret at 1. cbn [Z.eqb].
    unfold bind at 1, time_time at 1. cbn [wall_clock].
    destruct (wall_clock w) as [|now later]; [eexists; reflexivity|].
    apply IH; [reflexivity|]. simpl in Hfuel. lia.
Qed.

(** X9: [distance_cm] has no timeout: on an echo line whose every scripted
    reading is low it neither returns nor raises, whatever the clock
    answers; it is still polling when the script ends. *)
Theorem X9_distance_cm_waits_for_echo (w : world) :
  Forall (fun level => level = false) (echo_line w) ->
  (exists w', main.distance_cm w = Starved w')
  /\ (exists w', test_ultrasonic.distance_cm w = Starved w').
Proof.
  intros Hlow. rewrite test_ultrasonic_same_measure.
  assert (H : exists w', main.distance_cm w = Starved w').
  { unfold main.distance_cm.
    change (v <- gpio_input main.ECHO ;; ret (v =? 0)) with (pin_is main.ECHO 0).
    unfold bind at 1 2 3. unfold gpio_output, time_sleep, emit.
    cbn [active echo_line wall_clock color_sensor log].
    unfold bind at 1. unfold while_polling at 1. cbn [echo_line].
    match goal with
    | |- context [while_fuel ?f ?c ?b ?x ?w0] =>
        destruct (while_low_starves (echo_line w) Hlow f x w0 eq_refl) as [w' Hw'];
          [lia|rewrite Hw'; now exists w']
    end. }
  split; exact H.
Qed.

Lemma X9_distance_cm_waits_for_echo_witness :
  (exists w', main.distance_cm
                (mkWorld true [false; false; false] [1.0%float; 1.5%float; 2.0%float] [] [])
              = Starved w')
  /\ (exists w', test_ultrasonic.distance_cm
                   (mkWorld true [false; false; false] [1.0%float; 1.5%float; 2.0%float] [] [])
                 = Starved w').
Proof.
  apply (X9_distance_cm_waits_for_echo
           (mkWorld true [false; false; false] [1.0%float; 1.5%float; 2.0%float] [] [])).
  repeat constructor.
Defined.

(** ** What a measurement leaves alone *)

Lemma measure_frame_refl (w : world) : measure_frame w w.
Proof.
  repeat split. exists []. now rewrite app_nil_r.
Qed.

Lemma measure_frame_trans (w1 w2 w3 : world) :
  measure_frame w1 w2 -> measure_frame w2 w3 -> measure_frame w1 w3.
Proof.
  intros (Ha & Hc & l & Hl & Hq) (Ha' & Hc' & l' & Hl' & Hq').
  repeat split; try congruence.
  exists (l ++ l')%list. split.
  - now rewrite Hl', Hl, app_assoc.
  - now rewrite forallb_app, Hq, Hq'.
Qed.

Lemma measure_frame_emit (ev : event) (w : world) :
  measure_event ev = true -> measure_frame w (world_of (emit ev w)).
Proof.
  intros Hev. repeat split. exists [ev]. split; [reflexivity|]. simpl. now rewrite Hev.
Qed.

Lemma measure_frame_pin_is (pin k : Z) (w : world) :
  measure_frame w (world_of (pin_is pin k w)).
Proof.
  unfold pin_is, bind, gpio_input. destruct (echo_line w) as [|level later].
  - apply measure_frame_refl.
  - repeat split. eexists. split; reflexivity.
Qed.

Lemma measure_frame_time (w : world) : measure_frame w (world_of (time_time w)).
Proof.
  unfold time_time. destruct (wall_clock w) as [|now later].
  - apply measure_frame_refl.
  - repeat split. eexists. split; reflexivity.
Qed.

(** Sequencing two computations that each stay within the frame. *)
Lemma measure_frame_bind {A B} (m : M A) (k : A -> M B) (w : world) :
  measure_frame w (world_of (m w)) ->
  (forall a w', measure_frame w' (world_of (k a w'))) ->
  measure_frame w (world_of (bind m k w)).
Proof.
  intros Hm Hk. unfold bind. destruct (m w) as [a w'|e w'|w'|w']; simpl in *; try exact Hm.
  exact (measure_frame_trans _ _ _ Hm (Hk a w')).
Qed.

Lemma measure_frame_while (pin k : Z) (fuel : nat) :
  forall (x : option float) (w : world),
    measure_frame w (world_of (while_fuel fuel (pin_is pin k) time_time x w)).
Proof.
  induction fuel as [|fuel IH]; intros x w.
  - apply measure_frame_refl.
  - cbn [while_fuel]. apply measure_frame_bind; [apply measure_frame_pin_is|].
    intros [|] w'.
    + apply measure_frame_bind; [apply measure_frame_time|].
      intros t w''. apply IH.
    + apply measure_frame_refl.
Qed.

(** X10: whatever the scripts hold and however it ends, a call of
    [distance_cm] never writes the [active] flag, never reads the colour
    sensor, and adds to the log only pin traffic, clock reads and sleeps: no
    speech and no buzzer event. *)
Theorem X10_distance_cm_frame (w : world) :
  measure_frame w (world_of (main.distance_cm w))
  /\ measure_frame w (world_of (test_ultrasonic.distance_cm w)).
Proof.
  rewrite test_ultrasonic_same_measure.
  assert (H : measure_frame w (world_of (main.distance_cm w))).
  { unfold main.distance_cm.
    change (v <- gpio_input main.ECHO ;; ret (v =? 0)) with (pin_is main.ECHO 0).
    change (v <- gpio_input main.ECHO ;; ret (v =? 1)) with (pin_is main.ECHO 1).
    apply measure_frame_bind; [now apply measure_frame_emit|]. intros _ w1.
    apply measure_frame_bind; [now apply measure_frame_emit|]. intros _ w2.
    apply measure_frame_bind; [now apply measure_frame_emit|]. intros _ w3.
    apply measure_frame_bind; [apply measure_frame_while|]. intros pulse_start w4.
    apply measure_frame_bind; [apply measure_frame_while|]. intros pulse_end w5.
    apply measure_frame_bind.
    { destruct pulse_end; apply measure_frame_refl. }
    intros e w6. apply measure_frame_bind.
    { destruct pulse_start; apply measure_frame_refl. }
    intros s w7. apply measure_frame_refl. }
  split; exact H.
Qed.

(** ** The bands of the distance-to-delay table *)

(** A distance below [bound] reaches no threshold that is not below it. *)
Lemma below_threshold (dist bound : float) (threshold : Z) :
  PrimFloat.ltb dist bound = true ->
  PrimFloat.ltb (Py.float_of_int threshold) bound = false ->
  Py.float_ge_int dist threshold = false.
Proof.
  intros Hlt Hthr. unfold Py.float_ge_int.
  destruct (PrimFloat.leb (Py.float_of_int threshold) dist) eqn:Hge; [|reflexivity].
  now rewrite (float_le_lt_trans _ dist bound Hge Hlt) in Hthr.
Qed.

Ltac skip_band Hlt :=
  rewrite (below_threshold _ _ _ Hlt) by (vm_compute; reflexivity).

(** X11: the delay resolved for a distance is decided by the band it falls
    in: 1.25 from 150 up, 1.00 in [120, 150), 0.75 in [90, 120), 0.50 in
    [60, 90), 0.25 in [30, 60) and 0.07 in [0, 30). *)
Theorem X11_delay_bands (dist : float) :
  (PrimFloat.leb 150%float dist = true -> main.wait_time_for dist = Some 1.25%float)
  /\ (PrimFloat.leb 120%float dist = true -> PrimFloat.ltb dist 150%float = true ->
        main.wait_time_for dist = Some 1.00%float)
  /\ (PrimFloat.leb 90%float dist = true -> PrimFloat.ltb dist 120%float = true ->
        main.wait_time_for dist = Some 0.75%float)
  /\ (PrimFloat.leb 60%float dist = true -> PrimFloat.ltb dist 90%float = true ->
        main.wait_time_for dist = Some 0.50%float)
  /\ (PrimFloat.leb 30%float dist = true -> PrimFloat.ltb dist 60%float = true ->
        main.wait_time_for dist = Some 0.25%float)
  /\ (PrimFloat.leb 0%float dist = true -> PrimFloat.ltb dist 30%float = true ->
        main.wait_time_for dist = Some 0.07%float).
Proof.
  unfold main.wait_time_for, main.beep_entry, main.BEEP_TABLE, main.beep_entry_in.
  repeat split.
  - intros Hge. unfold Py.float_ge_int at 1.
    change (Py.float_of_int 150) with 150%float. now rewrite Hge.
  - intros Hge Hlt. skip_band Hlt. unfold Py.float_ge_int at 1.
    change (Py.float_of_int 120) with 120%float. now rewrite Hge.
  - intros Hge Hlt. do 2 skip_band Hlt. unfold Py.float_ge_int at 1.
    change (Py.float_of_int 90) with 90%float. now rewrite Hge.
  - intros Hge Hlt. do 3 skip_band Hlt. unfold Py.float_ge_int at 1.
    change (Py.float_of_int 60) with 60%float. now rewrite Hge.
  - intros Hge Hlt. do 4 skip_band Hlt. unfold Py.float_ge_int at 1.
    change (Py.float_of_int 30) with 30%float. now rewrite Hge.
  - intros Hge Hlt. do 5 skip_band Hlt. unfold Py.float_ge_int at 1.
    change (Py.float_of_int 0) with 0%float. now rewrite Hge.
Qed.

Lemma X11_delay_bands_witness :
  main.wait_time_for 150%float = Some 1.25%float
  /\ main.wait_time_for 149.5%float = Some 1.00%float
  /\ main.wait_time_for 90%float = Some 0.75%float
  /\ main.wait_time_for 89.5%float = Some 0.50%float
  /\ main.wait_time_for 30%float = Some 0.25%float
  /\ main.wait_time_for 0%float = Some 0.07%float.
Proof.
  refine (conj _ (conj _ (conj _ (conj _ (conj _ _))))).
  - apply (proj1 (X11_delay_bands 150%float)). vm_compute. reflexivity.
  - apply (proj1 (proj2 (X11_delay_bands 149.5%float))); vm_compute; reflexivity.
  - apply (proj1 (proj2 (proj2 (X11_delay_bands 90%float)))); vm_compute; reflexivity.
  - apply (proj1 (proj2 (proj2 (proj2 (X11_delay_bands 89.5%float)))));
      vm_compute; reflexivity.
  - apply (proj1 (proj2 (proj2 (proj2 (proj2 (X11_delay_bands 30%float))))));
      vm_compute; reflexivity.
  - apply (proj2 (proj2 (proj2 (proj2 (proj2 (X11_delay_bands 0%float))))));
      vm_compute; reflexivity.
Defined.

(** No threshold of the table is reached by a distance that is not at least
    zero. *)
Lemma beep_entry_needs_nonneg (dist : float) :
  PrimFloat.leb 0%float dist = false -> main.beep_entry dist = None.
Proof.
  intros Hnot. unfold main.beep_entry, main.BEEP_TABLE, main.beep_entry_in.
  repeat match goal with
         | |- context [Py.float_ge_int dist ?k] =>
             let G := fresh "G" in
             destruct (Py.float_ge_int dist k) eqn:G;
               [exfalso; unfold Py.float_ge_int in G;
                assert (Hz : PrimFloat.leb 0%float (Py.float_of_int k) = true)
                  by (vm_compute; reflexivity);
                rewrite (float_le_trans 0%float (Py.float_of_int k) dist Hz G) in Hnot;
                discriminate Hnot|]
         end.
  reflexivity.
Qed.

(** X12: [beep_for_distance] always returns.  When [dist >= 0] it logs
    exactly one pulse: a sleep of one of the table's delays, the buzzer
    started at duty 10, a sleep of 0.1 s, the buzzer stopped.  When
    [dist >= 0] is false, for a negative distance or NaN, it changes nothing.
    It never touches the sensors' scripts or the flag. *)
Theorem X12_beep_pulses_iff_nonneg (dist : float) (w : world) :
  (PrimFloat.leb 0%float dist = true ->
     exists t, In t (map snd main.BEEP_TABLE)
               /\ main.wait_time_for dist = Some t
               /\ main.beep_for_distance dist w =
                  Ret tt (mkWorld (active w) (echo_line w) (wall_clock w) (color_sensor w)
                                  (log w ++ pulse_log t)))
  /\ (PrimFloat.leb 0%float dist = false -> main.beep_for_distance dist w = Ret tt w).
Proof.
  split.
  - intros Hge.
    assert (Hsome : exists e, main.beep_entry dist = Some e).
    { destruct (main.beep_entry dist) as [e|] eqn:He; [now exists e|exfalso].
      revert He. unfold main.beep_entry, main.BEEP_TABLE, main.beep_entry_in.
      repeat match goal with
             | |- context [Py.float_ge_int dist ?k] =>
                 destruct (Py.float_ge_int dist k) eqn:?; [discriminate|]
             end.
      match goal with
      | H : Py.float_ge_int dist 0 = false |- _ =>
          unfold Py.float_ge_int in H; change (Py.float_of_int 0) with 0%float in H;
          rewrite Hge in H; discriminate H
      end. }
    destruct Hsome as [[threshold t] He]. exists t. split; [|split].
    + change t with (snd (threshold, t)). apply in_map.
      exact (beep_entry_in_table _ _ _ He).
    + unfold main.wait_time_for. now rewrite He.
    + unfold main.beep_for_distance, main.wait_time_for. rewrite He.
      unfold bind, time_sleep, buzzer_start, buzzer_stop, emit.
      cbn [active echo_line wall_clock color_sensor log]. unfold pulse_log.
      now rewrite <- !app_assoc.
  - intros Hnot. unfold main.beep_for_distance, main.wait_time_for.
    now rewrite (beep_entry_needs_nonneg dist Hnot).
Qed.

Lemma X12_beep_pulses_iff_nonneg_witness :
  (exists t, In t (map snd main.BEEP_TABLE)
             /\ main.wait_time_for 25%float = Some t
             /\ main.beep_for_distance 25%float (mkWorld true [] [] [] []) =
                Ret tt (mkWorld true [] [] [] ([] ++ pulse_log t)))
  /\ main.beep_for_distance nan (mkWorld true [] [] [] []) = Ret tt (mkWorld true [] [] [] []).
Proof.
  split.
  - apply (proj1 (X12_beep_pulses_iff_nonneg 25%float (mkWorld true [] [] [] []))).
    vm_compute. reflexivity.
  - apply (proj2 (X12_beep_pulses_iff_nonneg nan (mkWorld true [] [] [] []))).
    vm_compute. reflexivity.
Defined.

(** ** One iteration of the main loop *)

Lemma beep_for_distance_log (dist : float) (w : world) :
  main.beep_for_distance dist w =
  Ret tt (mkWorld (active w) (echo_line w) (wall_clock w) (color_sensor w)
                  (log w ++ beep_log dist)).
Proof.
  unfold main.beep_for_distance, beep_log.
  destruct (main.wait_time_for dist) as [t|].
  - unfold bind, time_sleep, buzzer_start, buzzer_stop, emit.
    cbn [active echo_line wall_clock color_sensor log]. unfold pulse_log.
    now rewrite <- !app_assoc.
  - unfold ret. rewrite app_nil_r. now destruct w.
Qed.

Lemma active_iteration (a_sample : rgb_t) (cs : list rgb_t) (w : world) :
  active w = true -> color_sensor w = a_sample :: cs ->
  main.main_iteration w =
  (dist <- main.distance_cm ;; main.beep_for_distance dist)
    (mkWorld true (echo_line w) (wall_clock w) cs
             (log w ++ [ColorRead a_sample; Speak (main.closest_color a_sample)])).
Proof.
  intros Hon Hcs. unfold main.main_iteration.
  unfold bind at 1, read_active. rewrite Hon. cbn [negb].
  unfold bind at 1, color_rgb_bytes. rewrite Hcs, Hon.
  unfold bind at 1, main.speak, emit. cbn [active echo_line wall_clock color_sensor log].
  now rewrite <- app_assoc.
Qed.




(** ** What the main loop leaves alone *)



(** The measurement opens with the trigger raised; what follows stays within
    the frame of a measurement. *)
Lemma distance_cm_opens_with_trigger (w : world) :
  exists l,
    log (world_of (main.distance_cm w)) = (log w ++ GpioOutput main.TRIG true :: l)%list
    /\ forallb measure_event l = true
    /\ active (world_of (main.distance_cm w)) = active w
    /\ color_sensor (world_of (main.distance_cm w)) = color_sensor w.
Proof.
  unfold main.distance_cm.
  change (v <- gpio_input main.ECHO ;; ret (v =? 0)) with (pin_is main.ECHO 0).
  change (v <- gpio_input main.ECHO ;; ret (v =? 1)) with (pin_is main.ECHO 1).
  unfold bind at 1. unfold gpio_output at 1, emit at 1.
  match goal with
  | |- context [world_of (?rest ?w1)] =>
      assert (Hframe : measure_frame w1 (world_of (rest w1)))
  end.
  { apply measure_frame_bind; [now apply measure_frame_emit|]. intros _ w2.
    apply measure_frame_bind; [now apply measure_frame_emit|]. intros _ w3.
    apply measure_frame_bind; [apply measure_frame_while|]. intros pulse_start w4.
    apply measure_frame_bind; [apply measure_frame_while|]. intros pulse_end w5.
    apply measure_frame_bind.
    { destruct pulse_end; apply measure_frame_refl. }
    intros e w6. apply measure_frame_bind.
    { destruct pulse_start; apply measure_frame_refl. }
    intros s w7. apply measure_frame_refl. }
  destruct Hframe as (Ha & Hc & l & Hl & Hq). cbn [active color_sensor log] in Ha, Hc, Hl.
  exists l. rewrite Hl, <- app_assoc. repeat split; try assumption.
Qed.

Lemma sampleless_iteration (w : world) :
  active w = true -> color_sensor w = [] -> main.main_iteration w = Starved w.
Proof.
  intros Hon Hcs. unfold main.main_iteration.
  unfold bind at 1, read_active. rewrite Hon. cbn [negb].
  unfold bind at 1, color_rgb_bytes. now rewrite Hcs.
Qed.

(** An iteration, paused or active, in terms of where it started. *)
Lemma main_iteration_frame (w : world) :
  active (world_of (main.main_iteration w)) = active w
  /\ exists l, log (world_of (main.main_iteration w)) = (log w ++ l)%list.
Proof.
  destruct (active w) eqn:Hon.
  - destruct (color_sensor w) as [|a_sample cs] eqn:Hcs.
    + rewrite (sampleless_iteration w Hon Hcs). cbn [world_of].
      split; [exact Hon|]. exists []. now rewrite app_nil_r.
    + rewrite (active_iteration a_sample cs w Hon Hcs).
      match goal with
      | |- context [bind main.distance_cm _ ?w1] =>
          destruct (distance_cm_opens_with_trigger w1) as (l & Hl & _ & Ha & _);
            unfold bind at 1 2;
            destruct (main.distance_cm w1) as [d w'|e w'|w'|w']
      end; cbn [world_of active log] in *.
      * rewrite beep_for_distance_log. cbn [world_of active log].
        split; [exact Ha|]. rewrite Hl, <- !app_assoc. eexists. reflexivity.
      * split; [exact Ha|]. rewrite Hl, <- !app_assoc. eexists. reflexivity.
      * split; [exact Ha|]. rewrite Hl, <- !app_assoc. eexists. reflexivity.
      * split; [exact Ha|]. rewrite Hl, <- !app_assoc. eexists. reflexivity.
  - rewrite (paused_iteration w Hon). cbn [world_of active log].
    split; [reflexivity|]. eexists. reflexivity.
Qed.

Lemma main_loop_step (n : nat) (w : world) :
  main.main_loop (S n) w =
  match main.main_iteration w with
  | Ret _ w' => main.main_loop n w'
  | Raise e w' => Raise e w'
  | Starved w' => Starved w'
  | OutOfFuel w' => OutOfFuel w'
  end.
Proof. reflexivity. Qed.

(** X15: the loop never writes the [active] flag: after any number of
    iterations, however the run ends, the flag is the one the run started
    with, and the log of the start is a prefix of the log of the end. *)
Theorem X15_main_loop_keeps_flag (n : nat) (w : world) :
  active (world_of (main.main_loop n w)) = active w
  /\ exists l, log (world_of (main.main_loop n w)) = (log w ++ l)%list.
Proof.
  revert w. induction n as [|n IH]; intros w.
  - simpl. split; [reflexivity|]. exists []. now rewrite app_nil_r.
  - rewrite main_loop_step.
    destruct (main_iteration_frame w) as (Ha & l & Hl).
    destruct (main.main_iteration w) as [u w'|e w'|w'|w']; cbn [world_of] in *;
      try (split; [exact Ha|now exists l]).
    destruct (IH w') as (Ha' & l' & Hl').
    split; [congruence|]. exists (l ++ l')%list. now rewrite Hl', Hl, app_assoc.
Qed.



(** ** The button callback *)

Lemma presses_flag (n : nat) (w : world) :
  presses n w =
  mkWorld (if Nat.even n then active w else negb (active w))
          (echo_line w) (wall_clock w) (color_sensor w) (log w).
Proof.
  induction n as [|n IH].
  - simpl. now destruct w.
  - change (presses (S n) w)
      with (world_of (main.on_button main.BUTTON_PIN (presses n w))).
    rewrite IH, on_button_toggles.
    cbn [world_of active echo_line wall_clock color_sensor log].
    rewrite Nat.even_succ, <- Nat.negb_even.
    destruct (Nat.even n); simpl; [reflexivity|now rewrite negb_involutive].
Qed.

(** X17: [on_button] changes nothing but the flag, and only the parity of
    the number of calls matters: an even number of calls restores the world,
    an odd number leaves it as a single call does. *)
Theorem X17_on_button_parity (n : nat) (w : world) :
  presses (2 * n) w = w
  /\ presses (2 * n + 1) w = presses 1 w
  /\ echo_line (presses n w) = echo_line w
  /\ wall_clock (presses n w) = wall_clock w
  /\ color_sensor (presses n w) = color_sensor w
  /\ log (presses n w) = log w.
Proof.
  rewrite !presses_flag.
  replace (Nat.even (2 * n)) with true
    by (symmetry; apply Nat.even_spec; now exists n).
  replace (Nat.even (2 * n + 1)) with false.
  - cbn [Nat.even active echo_line wall_clock color_sensor log].
    repeat split; now destruct w.
  - symmetry. rewrite Nat.add_1_r, Nat.even_succ, <- Nat.negb_even.
    replace (Nat.even (2 * n)) with true
      by (symmetry; apply Nat.even_spec; now exists n).
    reflexivity.
Qed.
